(** * Colour-sequencing simulator (server.cjs): model and verified properties

    A shallow embedding of the class [ColorSequencingSimulator] of
    [server.cjs].  The object's fields become a record, each method becomes a
    function on that record, and every source of nondeterminism
    ([Math.random], [Date.now], the firing of a [setTimeout] callback) becomes
    an explicit input or event. *)

From Stdlib Require Import List ZArith Lia Bool Arith Sorted Permutation.
Import ListNotations.

Set Implicit Arguments.

(** ** Data model *)

(** The colour tokens, keys of [COLOR_MAP] and the only values ever stored in
    [carBuffer]. *)
Inductive Color : Type :=
  C1 | C2 | C3 | C4 | C5 | C6 | C7 | C8 | C9 | C10 | C11 | C12.

(** The keys of [this.lines], in the order of the object literal. *)
Inductive LineId : Type := L1 | L2 | L3 | L4 | L5 | L6 | L7 | L8 | L9.

(** The keys of [this.ovens]. *)
Inductive OvenId : Type := O1 | O2.

(** ['active' | 'full' | 'unavailable'] *)
Inductive LineStatus : Type := Active | Full | Unavailable.

(** ['active' | 'stopped'] *)
Inductive OvenStatus : Type := OvenActive | OvenStopped.

Definition Color_eq_dec (a b : Color) : {a = b} + {a <> b}.
Proof. decide equality. Defined.

Definition LineId_eq_dec (a b : LineId) : {a = b} + {a <> b}.
Proof. decide equality. Defined.

Definition OvenId_eq_dec (a b : OvenId) : {a = b} + {a <> b}.
Proof. decide equality. Defined.

Definition LineStatus_eq_dec (a b : LineStatus) : {a = b} + {a <> b}.
Proof. decide equality. Defined.

Definition OvenStatus_eq_dec (a b : OvenStatus) : {a = b} + {a <> b}.
Proof. decide equality. Defined.

Definition Color_eqb (a b : Color) : bool := if Color_eq_dec a b then true else false.
Definition LineId_eqb (a b : LineId) : bool := if LineId_eq_dec a b then true else false.
Definition OvenId_eqb (a b : OvenId) : bool := if OvenId_eq_dec a b then true else false.
Definition LineStatus_eqb (a b : LineStatus) : bool :=
  if LineStatus_eq_dec a b then true else false.
Definition OvenStatus_eqb (a b : OvenStatus) : bool :=
  if OvenStatus_eq_dec a b then true else false.

(** A key of the [colorGroups] object of [selectNextLine]: [cars[0]], which
    is [undefined] ([None]) on an empty queue. *)
Definition key_eqb (a b : option Color) : bool :=
  match a, b with
  | Some x, Some y => Color_eqb x y
  | None, None => true
  | _, _ => false
  end.

(** [Object.keys(this.lines)]: insertion order of the literal in [reset]. *)
Definition lineIds : list LineId := [L1; L2; L3; L4; L5; L6; L7; L8; L9].

(** Position of a lane in [lineIds] (the lane-id order). *)
Definition lineIndex (id : LineId) : nat :=
  match id with
  | L1 => 0 | L2 => 1 | L3 => 2 | L4 => 3 | L5 => 4
  | L6 => 5 | L7 => 6 | L8 => 7 | L9 => 8
  end.

Record Line : Type := mkLine {
  status : LineStatus;
  cars : list Color;          (* front of the queue first *)
  capacity : nat;
  oven : OvenId;
  lastBreakdown : Z           (* milliseconds, a [Date.now()] value or 0 *)
}.

Record Oven : Type := mkOven {
  ovenStatus : OvenStatus;
  lastToggle : Z
}.

Record MainLine : Type := mkMainLine {
  feedingFrom : option LineId;
  currentCar : option Color
}.

Record Simulator : Type := mkSimulator {
  isRunning : bool;
  isPaused : bool;
  totalCarsProcessed : nat;
  processedThisHour : nat;
  hourStartTime : Z;
  recentSequence : list Color;
  carBuffer : list Color;
  ovens : OvenId -> Oven;
  lines : LineId -> Line;
  mainLine : MainLine;
  lastFedLine : option LineId;
  activeAlerts : nat
}.

(** *** Field assignments *)

Definition set_status (st : LineStatus) (l : Line) : Line :=
  mkLine st (cars l) (capacity l) (oven l) (lastBreakdown l).

Definition set_cars (cs : list Color) (l : Line) : Line :=
  mkLine (status l) cs (capacity l) (oven l) (lastBreakdown l).

Definition set_lastBreakdown (t : Z) (l : Line) : Line :=
  mkLine (status l) (cars l) (capacity l) (oven l) t.

(** [lines[id] = l] on the object of lanes. *)
Definition upd_line (f : LineId -> Line) (id : LineId) (l : Line) : LineId -> Line :=
  fun id' => if LineId_eq_dec id id' then l else f id'.

Definition set_lines (f : LineId -> Line) (s : Simulator) : Simulator :=
  mkSimulator (isRunning s) (isPaused s) (totalCarsProcessed s) (processedThisHour s)
    (hourStartTime s) (recentSequence s) (carBuffer s) (ovens s) f (mainLine s)
    (lastFedLine s) (activeAlerts s).

Definition set_carBuffer (b : list Color) (s : Simulator) : Simulator :=
  mkSimulator (isRunning s) (isPaused s) (totalCarsProcessed s) (processedThisHour s)
    (hourStartTime s) (recentSequence s) b (ovens s) (lines s) (mainLine s)
    (lastFedLine s) (activeAlerts s).

Definition set_activeAlerts (n : nat) (s : Simulator) : Simulator :=
  mkSimulator (isRunning s) (isPaused s) (totalCarsProcessed s) (processedThisHour s)
    (hourStartTime s) (recentSequence s) (carBuffer s) (ovens s) (lines s) (mainLine s)
    (lastFedLine s) n.

Definition set_mainLine (m : MainLine) (s : Simulator) : Simulator :=
  mkSimulator (isRunning s) (isPaused s) (totalCarsProcessed s) (processedThisHour s)
    (hourStartTime s) (recentSequence s) (carBuffer s) (ovens s) (lines s) m
    (lastFedLine s) (activeAlerts s).

Definition set_flags (running paused : bool) (s : Simulator) : Simulator :=
  mkSimulator running paused (totalCarsProcessed s) (processedThisHour s)
    (hourStartTime s) (recentSequence s) (carBuffer s) (ovens s) (lines s) (mainLine s)
    (lastFedLine s) (activeAlerts s).

Definition set_hour (n : nat) (t : Z) (s : Simulator) : Simulator :=
  mkSimulator (isRunning s) (isPaused s) (totalCarsProcessed s) n
    t (recentSequence s) (carBuffer s) (ovens s) (lines s) (mainLine s)
    (lastFedLine s) (activeAlerts s).

(** ** Array helpers *)

(** [a.sort(cmp)] for a consistent comparator.  ECMAScript requires the sort
    to be stable, so the result is the one an insertion sort gives: an element
    goes in front of the first later element it does not compare greater
    than. *)
Fixpoint sort_insert {A : Type} (cmp : A -> A -> Z) (x : A) (l : list A) : list A :=
  match l with
  | [] => [x]
  | y :: l' => if (cmp x y <=? 0)%Z then x :: y :: l' else y :: sort_insert cmp x l'
  end.

Fixpoint array_sort {A : Type} (cmp : A -> A -> Z) (l : list A) : list A :=
  match l with
  | [] => []
  | x :: l' => sort_insert cmp x (array_sort cmp l')
  end.

(** [a[i] = x] for an index inside the array. *)
Fixpoint array_set {A : Type} (l : list A) (i : nat) (x : A) : list A :=
  match l, i with
  | [], _ => []
  | _ :: l', 0 => x :: l'
  | y :: l', S i' => y :: array_set l' i' x
  end.

(** [[a[i], a[j]] = [a[j], a[i]]] for indices inside the array. *)
Definition array_swap {A : Type} (l : list A) (i j : nat) : list A :=
  match nth_error l i, nth_error l j with
  | Some x, Some y => array_set (array_set l i y) j x
  | _, _ => l
  end.

(** [for (let i = from; i < from + n; i++) body(i)] on a threaded state. *)
Fixpoint for_loop {St : Type} (n from : nat) (body : nat -> St -> St) (s : St) : St :=
  match n with
  | 0 => s
  | S n' => for_loop n' (S from) body (body from s)
  end.

(** ** reset *)

Definition COLOR_DISTRIBUTION : list (Color * nat) :=
  [(C1, 25); (C2, 20); (C3, 15); (C4, 15); (C5, 12); (C6, 8);
   (C7, 7); (C8, 6); (C9, 4); (C10, 3); (C11, 3); (C12, 2)].

(** [shuffleArray]: [i] runs from [length - 1] down to 1; [rnd i] stands for
    the [Math.random()] drawn at index [i], and [Math.floor(Math.random() *
    (i + 1))] is some index of [0..i], here [rnd i mod (i + 1)]. *)
Fixpoint shuffle_from (i : nat) (rnd : nat -> nat) (array : list Color) : list Color :=
  match i with
  | 0 => array
  | S i' => shuffle_from i' rnd (array_swap array i (rnd i mod (i + 1)))
  end.

Definition shuffleArray (rnd : nat -> nat) (array : list Color) : list Color :=
  shuffle_from (length array - 1) rnd array.

(** What [reset] reads from its environment. *)
Record ResetInput : Type := mkResetInput {
  shuffleDraws : nat -> nat;   (* the Math.random() draws of shuffleArray *)
  resetNow : Z;                (* Date.now() for hourStartTime *)
  resetNowO1 : Z;              (* Date.now() for ovens.O1.lastToggle *)
  resetNowO2 : Z               (* Date.now() for ovens.O2.lastToggle *)
}.

(** [reset] overwrites every field, so its result does not depend on the
    previous state; the constructor is [reset] on a fresh object. *)
Definition reset (inp : ResetInput) : Simulator :=
  {| isRunning := false;
     isPaused := false;
     totalCarsProcessed := 0;
     processedThisHour := 0;
     hourStartTime := resetNow inp;
     recentSequence := [];
     carBuffer :=
       shuffleArray (shuffleDraws inp)
         (flat_map (fun '(color, count) => repeat color count) COLOR_DISTRIBUTION);
     ovens := fun o =>
       match o with
       | O1 => mkOven OvenActive (resetNowO1 inp)
       | O2 => mkOven OvenActive (resetNowO2 inp)
       end;
     lines := fun id =>
       match id with
       | L1 | L2 | L3 | L4 => mkLine Active [] 14 O1 0
       | L5 | L6 | L7 | L8 | L9 => mkLine Active [] 16 O2 0
       end;
     mainLine := mkMainLine None None;
     lastFedLine := None;
     activeAlerts := 0 |}.

(** ** start, pause *)

Definition start (s : Simulator) : Simulator := set_flags true false s.

Definition pause (s : Simulator) : Simulator := set_flags (isRunning s) true s.

(** ** simulateBreakdown *)

(** [r] stands for the [Math.random()] of the victim pick
    ([Math.floor(Math.random() * activeLines.length)] is [r mod length]) and
    [now] for [Date.now()].  The second component is the lane for which the
    call registers a recovery timer with [setTimeout], if any. *)
Definition simulateBreakdown (r : nat) (now : Z) (s : Simulator)
  : Simulator * option LineId :=
  let activeLines :=
    filter (fun id => LineStatus_eqb (status (lines s id)) Active) lineIds in
  if 2 <? length activeLines then
    match nth_error activeLines (r mod length activeLines) with
    | Some randomLine =>
        if (15000 <? now - lastBreakdown (lines s randomLine))%Z then
          (set_lines
             (upd_line (lines s) randomLine
                (set_lastBreakdown now (set_status Unavailable (lines s randomLine))))
             s,
           Some randomLine)
        else (s, None)
    | None => (s, None)
    end
  else (s, None).

(** The callback given to [setTimeout] by [simulateBreakdown], for the lane
    [randomLine] it captured. *)
Definition recoveryTimer (randomLine : LineId) (s : Simulator) : Simulator :=
  if LineStatus_eqb (status (lines s randomLine)) Unavailable then
    set_lines (upd_line (lines s) randomLine (set_status Active (lines s randomLine))) s
  else s.

(** ** Lane allocation *)

Definition getAvailableLines (ovenId : OvenId) (s : Simulator) : list LineId :=
  filter
    (fun id =>
       OvenId_eqb (oven (lines s id)) ovenId
       && negb (LineStatus_eqb (status (lines s id)) Unavailable))
    lineIds.

(** The predicate of [availableLines.find] in [findBestLine]. *)
Definition sameColorTail (color : Color) (line : Line) : bool :=
  (0 <? length (cars line))
  && match nth_error (cars line) (length (cars line) - 1) with
     | Some c => Color_eqb c color
     | None => false
     end
  && (length (cars line) <? capacity line).

Definition findBestLine (color : Color) (ovenId : OvenId) (s : Simulator)
  : option LineId :=
  let availableLines := getAvailableLines ovenId s in
  match find (fun lineId => sameColorTail color (lines s lineId)) availableLines with
  | Some lineWithSameColor => Some lineWithSameColor
  | None =>
      let notFullLines :=
        filter
          (fun lineId => length (cars (lines s lineId)) <? capacity (lines s lineId))
          availableLines in
      match
        array_sort
          (fun a b =>
             (Z.of_nat (length (cars (lines s a)))
              - Z.of_nat (length (cars (lines s b))))%Z)
          notFullLines
      with
      | [] => None
      | first :: _ => Some first
      end
  end.

(** [this.lines[lineId].cars.push(car)] *)
Definition pushCar (lineId : LineId) (car : Color) (s : Simulator) : Simulator :=
  set_lines
    (upd_line (lines s) lineId
       (set_cars (cars (lines s lineId) ++ [car]) (lines s lineId)))
    s.

Definition alternate (ovenId : OvenId) : OvenId :=
  match ovenId with O1 => O2 | O2 => O1 end.

(** The part of the loop body of [processIncomingCars] that follows
    [const car = this.carBuffer.shift()]: [s] is the state after the shift,
    [ovenId] the oven drawn by [Math.random() < 0.5 ? 'O1' : 'O2'].  The second
    component is the lane that received the car, [None] when the car went back
    to the buffer. *)
Definition placeCar (car : Color) (ovenId : OvenId) (s : Simulator)
  : Simulator * option LineId :=
  if negb (OvenStatus_eqb (ovenStatus (ovens s ovenId)) OvenActive) then
    let alternateOven := alternate ovenId in
    if OvenStatus_eqb (ovenStatus (ovens s alternateOven)) OvenActive then
      match findBestLine car alternateOven s with
      | Some lineId => (pushCar lineId car s, Some lineId)
      | None => (set_carBuffer (car :: carBuffer s) s, None)
      end
    else (set_carBuffer (car :: carBuffer s) s, None)
  else
    match findBestLine car ovenId s with
    | None =>
        let alternateOven := alternate ovenId in
        match findBestLine car alternateOven s with
        | Some alternateLineId => (pushCar alternateLineId car s, Some alternateLineId)
        | None =>
            (set_activeAlerts (S (activeAlerts s))
               (set_carBuffer (car :: carBuffer s) s),
             None)
        end
    | Some lineId => (pushCar lineId car s, Some lineId)
    end.

(** [this.carBuffer.shift()]: the removed front car and the state left.  The
    loop never shifts an empty buffer ([carsToProcess] is at most its length
    and an iteration removes at most one car). *)
Definition shiftCar (s : Simulator) : option (Color * Simulator) :=
  match carBuffer s with
  | [] => None
  | car :: rest => Some (car, set_carBuffer rest s)
  end.

(** One iteration of the [for] loop of [processIncomingCars]. *)
Definition allocateOne (ovenId : OvenId) (s : Simulator) : Simulator * option LineId :=
  match shiftCar s with
  | Some (car, s') => placeCar car ovenId s'
  | None => (s, None)
  end.

(** The status pass of one lane at the end of [processIncomingCars]. *)
Definition refreshStatus (line : Line) : Line :=
  if capacity line <=? length (cars line) then set_status Full line
  else if LineStatus_eqb (status line) Full then set_status Active line
  else line.

(** The [Object.keys(this.lines).forEach] that closes [processIncomingCars]. *)
Definition refreshStatuses (s : Simulator) : Simulator :=
  fold_left
    (fun st lineId =>
       set_lines (upd_line (lines st) lineId (refreshStatus (lines st lineId))) st)
    lineIds s.

(** [ovenDraws i] is the oven drawn in iteration [i]. *)
Definition processIncomingCars (ovenDraws : nat -> OvenId) (s : Simulator) : Simulator :=
  match carBuffer s with
  | [] => s
  | _ :: _ =>
      let carsToProcess := Nat.min 2 (length (carBuffer s)) in
      refreshStatuses
        (for_loop carsToProcess 0 (fun i st => fst (allocateOne (ovenDraws i) st)) s)
  end.

(** ** Release sequencing *)

(** [colorGroups[color].push(lineId)], creating the group at the end of the
    object's keys when it is new.  The keys are not integer-like, so
    [Object.entries] lists them in insertion order. *)
Fixpoint addToGroup (color : option Color) (lineId : LineId)
         (groups : list (option Color * list LineId)) : list (option Color * list LineId) :=
  match groups with
  | [] => [(color, [lineId])]
  | (k, ids) :: rest =>
      if key_eqb color k then (k, ids ++ [lineId]) :: rest
      else (k, ids) :: addToGroup color lineId rest
  end.

(** [ids.reduce((sum, lineId) => sum + cars.filter(c => c === key).length, 0)] *)
Definition groupTotal (s : Simulator) (g : option Color * list LineId) : nat :=
  fold_left
    (fun sum lineId =>
       sum + length (filter (fun c => key_eqb (Some c) (fst g)) (cars (lines s lineId))))
    (snd g) 0.

Definition selectNextLine (s : Simulator) : option LineId :=
  let availableLines :=
    filter
      (fun id =>
         negb (LineStatus_eqb (status (lines s id)) Unavailable)
         && (0 <? length (cars (lines s id))))
      lineIds in
  match availableLines with
  | [] => None
  | _ :: _ =>
      let colorGroups :=
        fold_left
          (fun groups lineId => addToGroup (hd_error (cars (lines s lineId))) lineId groups)
          availableLines [] in
      let sortedColors :=
        array_sort
          (fun a b => (Z.of_nat (groupTotal s b) - Z.of_nat (groupTotal s a))%Z)
          colorGroups in
      match sortedColors with
      | (_, bestColorLines) :: _ => hd_error bestColorLines
      | [] => hd_error availableLines
      end
  end.

(** [recentSequence.push(car)] followed by the trim to 15 entries. *)
Definition pushRecent (car : Color) (seq : list Color) : list Color :=
  let seq' := seq ++ [car] in
  if 15 <? length seq' then tl seq' else seq'.

Definition processMainLine (s : Simulator) : Simulator :=
  match currentCar (mainLine s) with
  | None =>
      match selectNextLine s with
      | Some nextLine =>
          match cars (lines s nextLine) with
          | car :: rest =>
              let line := set_cars rest (lines s nextLine) in
              let line' :=
                if LineStatus_eqb (status line) Full
                   && (length (cars line) <? capacity line)
                then set_status Active line else line in
              set_lines (upd_line (lines s) nextLine line')
                (set_mainLine (mkMainLine (Some nextLine) (Some car)) s)
          | [] => s
          end
      | None => s
      end
  | Some car =>
      mkSimulator (isRunning s) (isPaused s) (S (totalCarsProcessed s))
        (S (processedThisHour s)) (hourStartTime s)
        (pushRecent car (recentSequence s)) (carBuffer s) (ovens s) (lines s)
        (mkMainLine None None) (lastFedLine s) (activeAlerts s)
  end.

(** ** tick *)

(** What one call of [tick] reads from its environment. *)
Record TickInput : Type := mkTickInput {
  breakdownRoll : bool;        (* Math.random() < 0.02 *)
  breakdownPick : nat;         (* the draw of simulateBreakdown *)
  breakdownNow : Z;            (* Date.now() in simulateBreakdown *)
  ovenDraws : nat -> OvenId;   (* the oven drawn in each allocation iteration *)
  hourNow : Z;                 (* Date.now() of the hourElapsed test *)
  hourResetNow : Z             (* Date.now() stored in hourStartTime *)
}.

(** The alert recomputation that closes [tick]. *)
Definition countAlerts (s : Simulator) : nat :=
  fold_left
    (fun n line =>
       if LineStatus_eqb (status line) Full || LineStatus_eqb (status line) Unavailable
       then S n else n)
    (map (lines s) lineIds) 0.

(** [hourElapsed >= 1] with [hourElapsed = (now - hourStartTime) / 1000 / 3600]
    holds exactly when at least 3600000 ms have elapsed.  The second component
    is the recovery timer registered during the tick, if any. *)
Definition tick (inp : TickInput) (s : Simulator) : Simulator * option LineId :=
  if negb (isRunning s) || isPaused s then (s, None)
  else
    let '(s1, timer) :=
      if breakdownRoll inp
      then simulateBreakdown (breakdownPick inp) (breakdownNow inp) s
      else (s, None) in
    let s2 := processIncomingCars (ovenDraws inp) s1 in
    let s3 := processMainLine s2 in
    let s4 :=
      if (3600000 <=? hourNow inp - hourStartTime s3)%Z
      then set_hour 0 (hourResetNow inp) s3 else s3 in
    (set_activeAlerts (countAlerts s4) s4, timer).

(** ** getStatus *)

Record LineView : Type := mkLineView {
  lv_status : LineStatus;
  lv_cars : list Color;
  lv_count : nat;
  lv_capacity : nat
}.

(** The [jph] field of the snapshot.  The source computes it in floating
    point; it is kept here as the expression the source evaluates, never as a
    number: [JphZero] is the literal 0 taken when [hourElapsed > 0] fails, and
    [JphOf processed elapsedMs] is the double
    [Math.round((processed / (elapsedMs / 1000 / 3600)) * 10) / 10]. *)
Inductive Jph : Type :=
| JphZero
| JphOf (processed : nat) (elapsedMs : Z).

Record LiveStatus : Type := mkLiveStatus {
  jph : Jph;
  total_cars_processed : nat;
  active_alerts : nat;
  recent_sequence : list Color;
  st_ovens : OvenId -> Oven;
  st_lines : LineId -> LineView;
  feeding_from : option LineId;
  current_car : option Color;
  is_running : bool;
  is_paused : bool
}.

(** [hourElapsed > 0 ? processedThisHour / hourElapsed : 0], rounded to one
    decimal: [hourElapsed] is [elapsedMs / 1000 / 3600], positive exactly when
    [elapsedMs] is. *)
Definition jphOf (processed : nat) (elapsedMs : Z) : Jph :=
  if (0 <? elapsedMs)%Z then JphOf processed elapsedMs else JphZero.

Definition getStatus (now : Z) (s : Simulator) : LiveStatus :=
  {| jph := jphOf (processedThisHour s) (now - hourStartTime s);
     total_cars_processed := totalCarsProcessed s;
     active_alerts := activeAlerts s;
     recent_sequence := recentSequence s;
     st_ovens := ovens s;
     st_lines := fun id =>
       let line := lines s id in
       mkLineView (status line) (cars line) (length (cars line)) (capacity line);
     feeding_from := feedingFrom (mainLine s);
     current_car := currentCar (mainLine s);
     is_running := isRunning s;
     is_paused := isPaused s |}.

(** ** Executions *)

(** Everything that changes the simulator: the three control commands, the
    500 ms heartbeat and the firing of a recovery timer.  A timer may fire
    between any two other events; the model lets one fire for any lane at any
    moment, which covers every schedule of the real timers. *)
Inductive Event : Type :=
| EvReset (inp : ResetInput)
| EvStart
| EvPause
| EvTick (inp : TickInput)
| EvTimer (lineId : LineId).

Definition step (s : Simulator) (e : Event) : Simulator :=
  match e with
  | EvReset inp => reset inp
  | EvStart => start s
  | EvPause => pause s
  | EvTick inp => fst (tick inp s)
  | EvTimer lineId => recoveryTimer lineId s
  end.

Definition run (s : Simulator) (evs : list Event) : Simulator := fold_left step evs s.

(** The states of the running server: the constructor's [reset], then any
    sequence of events. *)
Inductive reachable : Simulator -> Prop :=
| reach_init : forall inp, reachable (reset inp)
| reach_step : forall s e, reachable s -> reachable (step s e).

(** The breakdown an event performs, if any: the lane it marks
    ['unavailable'] and the timestamp it stores in [lastBreakdown]. *)
Definition breakdownOf (s : Simulator) (e : Event) : option (LineId * Z) :=
  match e with
  | EvTick inp =>
      match snd (tick inp s) with
      | Some lineId => Some (lineId, breakdownNow inp)
      | None => None
      end
  | _ => None
  end.

Definition isReset (e : Event) : bool :=
  match e with EvReset _ => true | _ => false end.

(** ** Specification vocabulary *)

(** A lane that may receive cars for oven [o]: bound to it and not broken
    down. *)
Definition eligibleLane (o : OvenId) (s : Simulator) (id : LineId) : Prop :=
  oven (lines s id) = o /\ status (lines s id) <> Unavailable.

(** An eligible lane with room left. *)
Definition spareLane (o : OvenId) (s : Simulator) (id : LineId) : Prop :=
  eligibleLane o s id /\ length (cars (lines s id)) < capacity (lines s id).

(** An eligible lane with room left whose most recently pushed car has colour
    [c]. *)
Definition continuationLane (c : Color) (o : OvenId) (s : Simulator) (id : LineId) : Prop :=
  spareLane o s id /\ exists front, cars (lines s id) = front ++ [c].

Definition laneOrdered (l : list LineId) : Prop :=
  forall l1 x l2, l = l1 ++ x :: l2 ->
    (forall y, In y l1 -> lineIndex y < lineIndex x)
    /\ (forall y, In y l2 -> lineIndex x < lineIndex y).

(** The object [colorGroups] built from the array [p], [key] giving the key
    under which a lane is filed (the colour at the front of its queue). *)
Definition groupsOf (key : LineId -> option Color) (p : list LineId)
  : list (option Color * list LineId) :=
  fold_left (fun groups lineId => addToGroup (key lineId) lineId groups) p [].

(** The keys of the groups, in the order the groups are created. *)
Definition addKey (k : option Color) (K : list (option Color)) : list (option Color) :=
  if existsb (key_eqb k) K then K else K ++ [k].

Definition firstKeys (key : LineId -> option Color) (p : list LineId)
  : list (option Color) :=
  fold_left (fun K lineId => addKey (key lineId) K) p [].

(** The lanes of [p] filed under [k], in the order of [p]. *)
Definition members (key : LineId -> option Color) (k : option Color) (p : list LineId)
  : list LineId :=
  filter (fun y => key_eqb (key y) k) p.

(** A lane the release sequencer may drain: not broken down, at least one
    queued car. *)
Definition candidateLane (s : Simulator) (id : LineId) : Prop :=
  status (lines s id) <> Unavailable /\ cars (lines s id) <> [].

(** The colour at the front of a lane's queue. *)
Definition frontColor (s : Simulator) (id : LineId) : option Color :=
  hd_error (cars (lines s id)).

(** The lanes of the group of colour [c]: lanes not broken down whose front
    car has colour [c]. *)
Definition groupLanes (s : Simulator) (c : Color) : list LineId :=
  filter
    (fun id =>
       negb (LineStatus_eqb (status (lines s id)) Unavailable)
       && key_eqb (frontColor s id) (Some c))
    lineIds.

(** The run weight of the group of colour [c]: the number of cars of colour
    [c] anywhere in the queues of the lanes of the group. *)
Definition runWeight (s : Simulator) (c : Color) : nat :=
  list_sum (map (fun id => count_occ Color_eq_dec (cars (lines s id)) c) (groupLanes s c)).

(** The array [availableLines] of [selectNextLine]. *)
Definition dispatchable (s : Simulator) : list LineId :=
  filter
    (fun id =>
       negb (LineStatus_eqb (status (lines s id)) Unavailable)
       && (0 <? length (cars (lines s id))))
    lineIds.

(** Cars queued in the lanes. *)
Definition lanesTotal (f : LineId -> Line) : nat :=
  list_sum (map (fun id => length (cars (f id))) lineIds).

(** One if the conveyor slot holds a car. *)
Definition inSlot (s : Simulator) : nat :=
  match currentCar (mainLine s) with Some _ => 1 | None => 0 end.

(** Cars in the system: backlog, lanes, conveyor slot and retired cars. *)
Definition carCount (s : Simulator) : nat :=
  length (carBuffer s) + lanesTotal (lines s) + inSlot s + totalCarsProcessed s.

(** What an allocation may do to a lane: nothing but lengthen its queue,
    within the capacity. *)
Definition laneGrows (l l' : Line) : Prop :=
  status l' = status l
  /\ capacity l' = capacity l
  /\ oven l' = oven l
  /\ lastBreakdown l' = lastBreakdown l
  /\ (length (cars l) <= capacity l -> length (cars l') <= capacity l).

(** A lane within its capacity, and marked ['full'] when at capacity. *)
Definition laneOK (l : Line) : Prop :=
  length (cars l) <= capacity l
  /\ (length (cars l) = capacity l -> status l = Full).

(** What every operation other than a breakdown guarantees for a lane: its
    capacity, oven and breakdown timestamp stay, it does not become
    ['unavailable'], and it stays well-formed. *)
Definition laneKeeps (l l' : Line) : Prop :=
  capacity l' = capacity l
  /\ oven l' = oven l
  /\ lastBreakdown l' = lastBreakdown l
  /\ (status l' = Unavailable -> status l = Unavailable)
  /\ (length (cars l) <= capacity l -> length (cars l') <= capacity l')
  /\ (laneOK l -> laneOK l').

(** The retirement performed on an occupied slot. *)
Definition retired (car : Color) (s : Simulator) : Simulator :=
  mkSimulator (isRunning s) (isPaused s) (S (totalCarsProcessed s))
    (S (processedThisHour s)) (hourStartTime s)
    (pushRecent car (recentSequence s)) (carBuffer s) (ovens s) (lines s)
    (mkMainLine None None) (lastFedLine s) (activeAlerts s).

(** The load performed on an empty slot: the front car of lane [id] moves to
    the slot and the lane is left as [line']. *)
Definition loaded (id : LineId) (car : Color) (line' : Line) (s : Simulator) : Simulator :=
  set_lines (upd_line (lines s) id line')
    (set_mainLine (mkMainLine (Some id) (Some car)) s).

(** The lanes counted by [simulateBreakdown]: status exactly ['active']. *)
Definition activeLanes (s : Simulator) : list LineId :=
  filter (fun id => LineStatus_eqb (status (lines s id)) Active) lineIds.

(** The state after lane [id] breaks down at time [now]. *)
Definition marked (id : LineId) (now : Z) (s : Simulator) : Simulator :=
  set_lines
    (upd_line (lines s) id (set_lastBreakdown now (set_status Unavailable (lines s id))))
    s.

(** What [tick] does after [processIncomingCars]. *)
Definition afterAllocation (inp : TickInput) (s2 : Simulator) : Simulator :=
  let s3 := processMainLine s2 in
  let s4 :=
    if (3600000 <=? hourNow inp - hourStartTime s3)%Z
    then set_hour 0 (hourResetNow inp) s3 else s3 in
  set_activeAlerts (countAlerts s4) s4.

(** What [tick] does after the breakdown roll. *)
Definition tickTail (inp : TickInput) (s1 : Simulator) : Simulator :=
  afterAllocation inp (processIncomingCars (ovenDraws inp) s1).

(** The breakdown roll of [tick]. *)
Definition tickRoll (inp : TickInput) (s : Simulator) : Simulator * option LineId :=
  if breakdownRoll inp
  then simulateBreakdown (breakdownPick inp) (breakdownNow inp) s
  else (s, None).

(** *** Sample inputs *)

(** A reset at time 1000000 (every shuffle draw keeps the car in place). *)
Definition sampleReset : ResetInput := mkResetInput (fun i => i) 1000000 1000000 1000000.

(** A tick at time 1000500 whose breakdown roll hits and picks the first
    active lane; both oven draws are O1. *)
Definition sampleTick : TickInput :=
  mkTickInput true 0 1000500 (fun _ => O1) 1000500 1000500.

(** The same tick one second later, inside the cooldown. *)
Definition sampleTickSoon : TickInput :=
  mkTickInput true 0 1001500 (fun _ => O1) 1001500 1001500.

(** The same tick 19.5 s later, past the cooldown. *)
Definition sampleTickLater : TickInput :=
  mkTickInput true 0 1020000 (fun _ => O1) 1020000 1020000.

(** A reset whose shuffle draws mix the colours. *)
Definition shuffledReset : ResetInput :=
  mkResetInput (fun i => (i * i) / 3 + i / 2) 1000000 1000000 1000000.

(** A tick without breakdown roll and a tick whose breakdown roll picks the
    active lane of index [pick]; every oven draw is O1. *)
Definition quietTick : TickInput :=
  mkTickInput false 0 1000500 (fun _ => O1) 1000500 1000500.

Definition breakTick (pick : nat) : TickInput :=
  mkTickInput true pick 1000500 (fun _ => O1) 1000500 1000500.

(** A saturated state of the running server.  After a reset and [start], 26
    ticks fill the lanes of oven O1; in the next five ticks the breakdown roll
    hits, one after the other, the five lanes of oven O2; seven more ticks
    fill what room is left on O1.  The twelve ticks from the first breakdown
    take 6 s, less than the 8 s after which the first recovery timer is
    due. *)
Definition saturatedTrace : list Event :=
  EvStart
    :: repeat (EvTick quietTick) 26
    ++ repeat (EvTick (breakTick 3)) 5
    ++ repeat (EvTick quietTick) 7.

Definition saturated : Simulator := run (reset shuffledReset) saturatedTrace.

(** The state after [reset] with the queues of L1 and L2 replaced. *)
Definition withQueues (q1 q2 : list Color) : Simulator :=
  set_lines
    (upd_line
       (upd_line (lines (reset sampleReset)) L1
          (set_cars q1 (lines (reset sampleReset) L1)))
       L2 (set_cars q2 (lines (reset sampleReset) L2)))
    (reset sampleReset).

(** *** Executions and claims on them *)

(** No reset among the events. *)
Definition noReset (evs : list Event) : bool := forallb (fun e => negb (isReset e)) evs.

(** The claim for one execution: [e] breaks a lane down at time [T], the
    events [evs] follow, and then [e'] breaks the same lane down at time [T'];
    the second breakdown is not before [T + 15000]. *)
Definition cooldown_respected (s : Simulator) (e : Event) (evs : list Event)
           (e' : Event) : Prop :=
  forall id T T',
    breakdownOf s e = Some (id, T) ->
    breakdownOf (run (step s e) evs) e' = Some (id, T') ->
    (T + 15000 <= T')%Z.

(** The number of lanes whose status is ['full'] or ['unavailable']. *)
Definition alertCount (s : Simulator) : nat :=
  length
    (filter
       (fun id =>
          match status (lines s id) with
          | Full | Unavailable => true
          | Active => false
          end)
       lineIds).

(** The fields the release sequencer owns. *)
Definition sameConveyor (s s' : Simulator) : Prop :=
  mainLine s' = mainLine s
  /\ totalCarsProcessed s' = totalCarsProcessed s
  /\ processedThisHour s' = processedThisHour s
  /\ recentSequence s' = recentSequence s.

(** The claim that [pause] on a stopped simulator is not observable: the
    snapshot is the same before and after, [is_paused] reading false. *)
Definition pause_unobservable (now : Z) (s : Simulator) : Prop :=
  isRunning s = false ->
  getStatus now (pause s) = getStatus now s
  /\ is_paused (getStatus now (pause s)) = false.

(** The snapshot [v] with [is_paused] replaced. *)
Definition with_is_paused (b : bool) (v : LiveStatus) : LiveStatus :=
  mkLiveStatus (jph v) (total_cars_processed v) (active_alerts v)
    (recent_sequence v) (st_ovens v) (st_lines v) (feeding_from v) (current_car v)
    (is_running v) b.

(** The claim on the allocation phase of one tick, [processIncomingCars],
    when the allocation of the first car it dequeues fails.  The car is back
    at the front of the backlog, the other cars behind it in their order, when
    the phase ends; and the car is not dequeued again in that tick.  Dequeuing
    takes the front of the backlog, where the failed car is, so the tick has
    nothing more to dequeue: its allocation phase is that one attempt followed
    by the status pass. *)
Definition retried_next_tick (draws : nat -> OvenId) (s : Simulator) : Prop :=
  forall car rest,
    carBuffer s = car :: rest ->
    snd (allocateOne (draws 0) s) = None ->
    carBuffer (processIncomingCars draws s) = car :: rest
    /\ processIncomingCars draws s = refreshStatuses (fst (allocateOne (draws 0) s)).

(** *** Vocabulary of the further properties *)

(** The number of cars of colour [c] the table [COLOR_DISTRIBUTION] asks
    for. *)
Definition distributionCount (c : Color) : nat :=
  list_sum (map snd (filter (fun entry => Color_eqb (fst entry) c) COLOR_DISTRIBUTION)).

(** The capacity and the oven the literal of [reset] gives each lane. *)
Definition initialCapacity (id : LineId) : nat :=
  match id with
  | L1 | L2 | L3 | L4 => 14
  | L5 | L6 | L7 | L8 | L9 => 16
  end.

Definition initialOven (id : LineId) : OvenId :=
  match id with
  | L1 | L2 | L3 | L4 => O1
  | L5 | L6 | L7 | L8 | L9 => O2
  end.

(** The lanes the dashboard lists under each oven ([oven1Lines] and
    [oven2Lines] of the [App] component). *)
Definition oven1Lines : list LineId := [L1; L2; L3; L4].

Definition oven2Lines : list LineId := [L5; L6; L7; L8; L9].

(** What no event but [reset] touches: the ovens, the capacity and the oven
    of every lane, and [lastFedLine]. *)
Definition configOK (s : Simulator) : Prop :=
  (forall o, ovenStatus (ovens s o) = OvenActive)
  /\ (forall id, capacity (lines s id) = initialCapacity id)
  /\ (forall id, oven (lines s id) = initialOven id)
  /\ lastFedLine s = None.

(** The fields the lane allocator and the release sequencer leave alone. *)
Definition sameControl (s s' : Simulator) : Prop :=
  isRunning s' = isRunning s
  /\ isPaused s' = isPaused s
  /\ ovens s' = ovens s
  /\ lastFedLine s' = lastFedLine s.

(** A lane whose status tells its occupancy: within capacity, and ['full']
    exactly when at capacity. *)
Definition laneTight (l : Line) : Prop :=
  length (cars l) <= capacity l
  /\ (status l = Full <-> length (cars l) = capacity l).

(** The demotion [processMainLine] applies to the lane it has popped. *)
Definition demote (line : Line) : Line :=
  if LineStatus_eqb (status line) Full && (length (cars line) <? capacity line)
  then set_status Active line else line.

(** [ovens[o] = v] on the object of ovens. *)
Definition set_ovens (f : OvenId -> Oven) (s : Simulator) : Simulator :=
  mkSimulator (isRunning s) (isPaused s) (totalCarsProcessed s) (processedThisHour s)
    (hourStartTime s) (recentSequence s) (carBuffer s) f (lines s) (mainLine s)
    (lastFedLine s) (activeAlerts s).

(** A state with oven O2 stopped and the four lanes of oven O1 broken down:
    the state after [reset] with those fields overwritten. *)
Definition stoppedO2 : Simulator :=
  set_ovens
    (fun o => match o with
              | O1 => mkOven OvenActive 1000000
              | O2 => mkOven OvenStopped 1000000
              end)
    (set_lines
       (fun id =>
          match initialOven id with
          | O1 => set_status Unavailable (lines (reset sampleReset) id)
          | O2 => lines (reset sampleReset) id
          end)
       (reset sampleReset)).

(** An event of the heartbeat or of a recovery timer. *)
Definition tickOrTimer (e : Event) : bool :=
  match e with
  | EvTick _ | EvTimer _ => true
  | _ => false
  end.

(** [line.cars.slice(-10)] of the [BufferLine] component: the last ten cars,
    all of them when there are fewer. *)
Definition visibleCars (cars : list Color) : list Color :=
  skipn (length cars - 10) cars.

(** The number on the [+N] badge of [BufferLine], shown when
    [line.cars.length > 10]. *)
Definition overflowBadge (cars : list Color) : option nat :=
  if 10 <? length cars then Some (length cars - 10) else None.

(** What the release sequencer maintains: at most 15 entries in
    [recentSequence], the two fields of [mainLine] set or null together, and
    no more cars counted in the hour than in total. *)
Definition conveyorOK (s : Simulator) : Prop :=
  length (recentSequence s) <= 15
  /\ (currentCar (mainLine s) = None <-> feedingFrom (mainLine s) = None)
  /\ processedThisHour s <= totalCarsProcessed s.

(** [s'] differs from [s] at most by lanes gone from ['unavailable'] back to
    ['active']. *)
Definition healedOnly (s s' : Simulator) : Prop :=
  isRunning s' = isRunning s
  /\ isPaused s' = isPaused s
  /\ carBuffer s' = carBuffer s
  /\ mainLine s' = mainLine s
  /\ totalCarsProcessed s' = totalCarsProcessed s
  /\ processedThisHour s' = processedThisHour s
  /\ recentSequence s' = recentSequence s
  /\ activeAlerts s' = activeAlerts s
  /\ hourStartTime s' = hourStartTime s
  /\ ovens s' = ovens s
  /\ lastFedLine s' = lastFedLine s
  /\ forall id,
       cars (lines s' id) = cars (lines s id)
       /\ capacity (lines s' id) = capacity (lines s id)
       /\ oven (lines s' id) = oven (lines s id)
       /\ lastBreakdown (lines s' id) = lastBreakdown (lines s id)
       /\ (status (lines s' id) = status (lines s id)
           \/ (status (lines s id) = Unavailable /\ status (lines s' id) = Active)).

(** The states in which the loop of [processIncomingCars] cannot fail: the
    configuration of [reset], no lane broken down, 120 cars in the system. *)
Definition unobstructed (s : Simulator) : Prop :=
  configOK s
  /\ (forall id, status (lines s id) <> Unavailable)
  /\ carCount s = 120.

(** The [disabled] attributes of the Start and Pause buttons of the
    [Controls] component, from the two flags of the snapshot. *)
Definition startDisabled (v : LiveStatus) : bool := is_running v && negb (is_paused v).

Definition pauseDisabled (v : LiveStatus) : bool := negb (is_running v) || is_paused v.

(** ** Facts on the array helpers *)

Lemma Color_eqb_eq (a b : Color) : Color_eqb a b = true <-> a = b.
Proof. unfold Color_eqb. destruct (Color_eq_dec a b); split; congruence. Qed.

Lemma OvenId_eqb_eq (a b : OvenId) : OvenId_eqb a b = true <-> a = b.
Proof. unfold OvenId_eqb. destruct (OvenId_eq_dec a b); split; congruence. Qed.

Lemma LineStatus_eqb_eq (a b : LineStatus) : LineStatus_eqb a b = true <-> a = b.
Proof. unfold LineStatus_eqb. destruct (LineStatus_eq_dec a b); split; congruence. Qed.

Lemma LineStatus_eqb_neq (a b : LineStatus) : LineStatus_eqb a b = false <-> a <> b.
Proof. unfold LineStatus_eqb. destruct (LineStatus_eq_dec a b); split; congruence. Qed.

Lemma key_eqb_eq (a b : option Color) : key_eqb a b = true <-> a = b.
Proof.
  destruct a as [x|], b as [y|]; simpl; try (split; congruence).
  rewrite Color_eqb_eq. split; congruence.
Qed.

Lemma upd_line_same (f : LineId -> Line) id l : upd_line f id l id = l.
Proof. unfold upd_line. destruct (LineId_eq_dec id id); congruence. Qed.

Lemma upd_line_other (f : LineId -> Line) id id' l :
  id <> id' -> upd_line f id l id' = f id'.
Proof. unfold upd_line. destruct (LineId_eq_dec id id'); congruence. Qed.

Section Sorting.
Variable A : Type.
Variable cmp : A -> A -> Z.

Lemma sort_insert_In x y l : In y (sort_insert cmp x l) <-> y = x \/ In y l.
Proof.
  induction l as [|z l IH]; simpl.
  - intuition.
  - destruct (cmp x z <=? 0)%Z; simpl; [intuition|].
    rewrite IH. intuition.
Qed.

Lemma array_sort_In y l : In y (array_sort cmp l) <-> In y l.
Proof.
  induction l as [|x l IH]; simpl; [reflexivity|].
  rewrite sort_insert_In, IH. intuition.
Qed.

Lemma array_sort_nil l : array_sort cmp l = [] -> l = [].
Proof.
  destruct l as [|x l]; [reflexivity|]. simpl.
  destruct (array_sort cmp l) as [|y r]; simpl; [discriminate|].
  destruct (cmp x y <=? 0)%Z; discriminate.
Qed.

(** The comparator orders by a numeric rank, as the two comparators of the
    source do. *)
Variable rank : A -> Z.
Hypothesis cmp_rank : forall a b, cmp a b = (rank a - rank b)%Z.

(** The head of the sorted array is the first element of least rank. *)
Lemma array_sort_head l x r :
  array_sort cmp l = x :: r ->
  exists l1 l2,
    l = l1 ++ x :: l2
    /\ (forall y, In y l1 -> (rank x < rank y)%Z)
    /\ (forall y, In y l2 -> (rank x <= rank y)%Z).
Proof.
  revert x r. induction l as [|a l IH]; intros x r Hs; simpl in Hs; [discriminate|].
  destruct (array_sort cmp l) as [|y r'] eqn:Hl.
  - apply array_sort_nil in Hl. subst l. simpl in Hs. inversion Hs; subst.
    exists [], []. simpl. intuition.
  - simpl in Hs. rewrite cmp_rank in Hs.
    destruct (IH y r' eq_refl) as (l1 & l2 & El & H1 & H2).
    destruct (rank a - rank y <=? 0)%Z eqn:Hc.
    + inversion Hs; subst x r. apply Z.leb_le in Hc.
      exists [], l. simpl. split; [reflexivity|]. split; [intuition|].
      intros z Hz. rewrite El in Hz. apply in_app_or in Hz.
      destruct Hz as [Hz|[Hz|Hz]].
      * specialize (H1 z Hz). lia.
      * subst z. lia.
      * specialize (H2 z Hz). lia.
    + inversion Hs; subst x r. apply Z.leb_gt in Hc.
      exists (a :: l1), l2. rewrite El. simpl. split; [reflexivity|].
      split; [|assumption].
      intros z [Hz|Hz]; [subst z; lia|auto].
Qed.
End Sorting.

(** *** Lane-id order of the arrays derived from [Object.keys(this.lines)] *)

Lemma lineIds_all id : In id lineIds.
Proof. destruct id; simpl; tauto. Qed.

Lemma laneOrdered_sorted l :
  StronglySorted (fun a b => lineIndex a < lineIndex b) l -> laneOrdered l.
Proof.
  induction 1 as [|a l Hs IH Ha]; intros l1 x l2 E.
  - destruct l1; discriminate.
  - destruct l1 as [|b l1]; simpl in E; inversion E; subst.
    + split; [intros y []|]. intros y Hy. rewrite Forall_forall in Ha. auto.
    + destruct (IH l1 x l2 eq_refl) as [H1 H2]. split; [|assumption].
      intros y [Hy|Hy]; [subst y|auto].
      rewrite Forall_forall in Ha. apply Ha. apply in_or_app. right. left. reflexivity.
Qed.

Lemma sorted_filter (f : LineId -> bool) l :
  StronglySorted (fun a b => lineIndex a < lineIndex b) l ->
  StronglySorted (fun a b => lineIndex a < lineIndex b) (filter f l).
Proof.
  induction 1 as [|a l Hs IH Ha]; simpl; [constructor|].
  destruct (f a); [|assumption].
  constructor; [assumption|].
  rewrite Forall_forall in *. intros y Hy. apply filter_In in Hy. apply Ha, Hy.
Qed.

Lemma lineIds_sorted : StronglySorted (fun a b => lineIndex a < lineIndex b) lineIds.
Proof. unfold lineIds. repeat constructor. Qed.

Lemma laneOrdered_filter f : laneOrdered (filter f lineIds).
Proof. apply laneOrdered_sorted, sorted_filter, lineIds_sorted. Qed.

Lemma laneOrdered_filter2 f g : laneOrdered (filter g (filter f lineIds)).
Proof. apply laneOrdered_sorted, sorted_filter, sorted_filter, lineIds_sorted. Qed.

(** ** findBestLine *)

Lemma nth_error_last_snoc (front : list Color) c :
  nth_error (front ++ [c]) (length (front ++ [c]) - 1) = Some c.
Proof.
  rewrite length_app. simpl.
  replace (length front + 1 - 1) with (length front) by lia.
  rewrite nth_error_app2 by lia. rewrite Nat.sub_diag. reflexivity.
Qed.

Lemma sameColorTail_spec c line :
  sameColorTail c line = true <->
  (exists front, cars line = front ++ [c]) /\ length (cars line) < capacity line.
Proof.
  unfold sameColorTail. rewrite !andb_true_iff, Nat.ltb_lt, Nat.ltb_lt. split.
  - intros [[Hpos Hlast] Hcap]. split; [|assumption].
    destruct (cars line) as [|a l] using rev_ind; [simpl in Hpos; lia|].
    rewrite nth_error_last_snoc in Hlast. apply Color_eqb_eq in Hlast. subst a.
    exists l. reflexivity.
  - intros [[front E] Hcap]. rewrite E in *. rewrite nth_error_last_snoc.
    repeat split; try assumption.
    + rewrite length_app. simpl. lia.
    + apply Color_eqb_eq. reflexivity.
Qed.

Lemma getAvailableLines_In o s id :
  In id (getAvailableLines o s) <-> eligibleLane o s id.
Proof.
  unfold getAvailableLines, eligibleLane. rewrite filter_In, andb_true_iff.
  rewrite OvenId_eqb_eq, negb_true_iff, LineStatus_eqb_neq.
  pose proof (lineIds_all id). tauto.
Qed.

Lemma notFull_In o s id :
  In id (filter (fun lineId => length (cars (lines s lineId)) <? capacity (lines s lineId))
           (getAvailableLines o s))
  <-> spareLane o s id.
Proof.
  unfold spareLane. rewrite filter_In, getAvailableLines_In, Nat.ltb_lt. reflexivity.
Qed.

(** Whatever lane [findBestLine] returns is eligible and has room. *)
Lemma findBestLine_spare c o s id : findBestLine c o s = Some id -> spareLane o s id.
Proof.
  unfold findBestLine.
  destruct (find _ (getAvailableLines o s)) as [x|] eqn:Hf.
  - intro E. inversion E; subst x. apply find_some in Hf. destruct Hf as [Hin Hp].
    apply sameColorTail_spec in Hp. split; [apply getAvailableLines_In, Hin | tauto].
  - destruct (array_sort _ _) as [|x r] eqn:Hs; [discriminate|].
    intro E. inversion E; subst x.
    apply notFull_In. eapply array_sort_In. rewrite Hs. left. reflexivity.
Qed.

(** C3.  Postcondition of [findBestLine], for every state, colour and oven:
    when the oven has a continuation lane (eligible, room left, last pushed
    car of the wanted colour) the result is such a lane; when it has none but
    has an eligible lane with room, the result is the one with the fewest
    queued cars, the lowest lane id among equals; when no eligible lane has
    room the result is null. *)
Theorem findBestLine_postcondition (s : Simulator) (c : Color) (o : OvenId) :
  ((exists id, continuationLane c o s id) ->
   exists id, findBestLine c o s = Some id /\ continuationLane c o s id)
  /\ (~ (exists id, continuationLane c o s id) ->
      (exists id, spareLane o s id) ->
      exists id,
        findBestLine c o s = Some id
        /\ spareLane o s id
        /\ forall id', spareLane o s id' ->
             length (cars (lines s id)) <= length (cars (lines s id'))
             /\ (length (cars (lines s id')) = length (cars (lines s id)) ->
                 lineIndex id <= lineIndex id'))
  /\ (~ (exists id, spareLane o s id) -> findBestLine c o s = None).
Proof.
  pose proof (@findBestLine_spare c o s) as Hspare.
  unfold findBestLine in *.
  destruct (find _ (getAvailableLines o s)) as [x|] eqn:Hf.
  - assert (Hx : continuationLane c o s x).
    { apply find_some in Hf. destruct Hf as [Hin Hp].
      apply sameColorTail_spec in Hp. apply getAvailableLines_In in Hin.
      unfold continuationLane, spareLane. tauto. }
    split; [|split].
    + intros _. exists x. auto.
    + intros Hno. exfalso. apply Hno. exists x. assumption.
    + intros Hno. exfalso. apply Hno. exists x. apply Hx.
  - assert (Hnone : ~ exists id, continuationLane c o s id).
    { intros [id [[He Hroom] Hlast]].
      pose proof (find_none _ _ Hf id) as Hn.
      assert (Hp : sameColorTail c (lines s id) = true)
        by (apply sameColorTail_spec; tauto).
      rewrite Hn in Hp; [discriminate|]. apply getAvailableLines_In, He. }
    split; [|split].
    + intros H. contradiction.
    + intros _ [y Hy].
      destruct (array_sort _ _) as [|x r] eqn:Hs.
      { apply array_sort_nil in Hs. apply notFull_In in Hy. rewrite Hs in Hy.
        destruct Hy. }
      exists x. split; [reflexivity|]. split; [apply Hspare; reflexivity|].
      intros id' Hid'.
      destruct (@array_sort_head _ _
                  (fun a => Z.of_nat (length (cars (lines s a))))
                  (fun a b => eq_refl) _ _ _ Hs)
        as (l1 & l2 & El & H1 & H2).
      apply notFull_In in Hid'.
      destruct (laneOrdered_filter2
                  (fun id =>
                     OvenId_eqb (oven (lines s id)) o
                     && negb (LineStatus_eqb (status (lines s id)) Unavailable))
                  (fun lineId =>
                     length (cars (lines s lineId)) <? capacity (lines s lineId))
                  l1 x l2 El) as [Ho1 Ho2].
      rewrite El in Hid'.
      apply in_app_or in Hid'. destruct Hid' as [Hi|[Hi|Hi]].
      * specialize (H1 _ Hi). lia.
      * subst id'. lia.
      * specialize (H2 _ Hi). specialize (Ho2 _ Hi). lia.
    + intros Hno. destruct (array_sort _ _) as [|x r] eqn:Hs; [reflexivity|].
      exfalso. apply Hno. exists x. apply Hspare. reflexivity.
Qed.

(** ** selectNextLine: the grouping by front colour *)

Section Grouping.
(** The key under which a lane is filed: the colour at the front of its
    queue. *)
Variable key : LineId -> option Color.

Lemma existsb_key k K : existsb (key_eqb k) K = true <-> In k K.
Proof.
  rewrite existsb_exists. split.
  - intros [x [Hx E]]. apply key_eqb_eq in E. subst x. assumption.
  - intros H. exists k. split; [assumption|]. apply key_eqb_eq. reflexivity.
Qed.

Lemma firstKeys_snoc p z : firstKeys key (p ++ [z]) = addKey (key z) (firstKeys key p).
Proof. unfold firstKeys. rewrite fold_left_app. reflexivity. Qed.

Lemma groupsOf_snoc p z : groupsOf key (p ++ [z]) = addToGroup (key z) z (groupsOf key p).
Proof. unfold groupsOf. rewrite fold_left_app. reflexivity. Qed.

Lemma addKey_In k k' K : In k' (addKey k K) <-> In k' K \/ k' = k.
Proof.
  unfold addKey. destruct (existsb (key_eqb k) K) eqn:E.
  - apply existsb_key in E. split; [tauto|]. intros [H|H]; [assumption|subst; assumption].
  - rewrite in_app_iff. simpl. intuition.
Qed.

Lemma firstKeys_In k p : In k (firstKeys key p) <-> exists y, In y p /\ key y = k.
Proof.
  induction p as [|z p IH] using rev_ind.
  - simpl. split; [tauto|]. intros [y [[] _]].
  - rewrite firstKeys_snoc, addKey_In, IH. split.
    + intros [[y [Hy E]]|E].
      * exists y. split; [apply in_or_app; left; assumption|assumption].
      * exists z. split; [apply in_or_app; right; left; reflexivity|congruence].
    + intros [y [Hy E]]. apply in_app_or in Hy. destruct Hy as [Hy|[Hy|[]]].
      * left. exists y. tauto.
      * right. subst y. congruence.
Qed.

Lemma firstKeys_NoDup p : NoDup (firstKeys key p).
Proof.
  induction p as [|z p IH] using rev_ind; [constructor|].
  rewrite firstKeys_snoc. unfold addKey.
  destruct (existsb (key_eqb (key z)) (firstKeys key p)) eqn:E; [assumption|].
  assert (Hn : ~ In (key z) (firstKeys key p)).
  { intro H. apply existsb_key in H. congruence. }
  clear E. revert IH Hn. generalize (firstKeys key p) as K, (key z) as k.
  induction K as [|a K IHK]; intros k Hnd Hn; simpl.
  - constructor; [tauto|constructor].
  - inversion Hnd; subst. constructor.
    + rewrite in_app_iff. simpl in *. intuition.
    + apply IHK; [assumption|]. simpl in Hn. tauto.
Qed.

(** Filing one more lane, on groups whose keys are pairwise distinct. *)
Lemma addToGroup_map (g : option Color -> list LineId) kz z K :
  NoDup K ->
  addToGroup kz z (map (fun k => (k, g k)) K)
  = map (fun k => (k, g k ++ if key_eqb kz k then [z] else [])) K
    ++ (if existsb (key_eqb kz) K then [] else [(kz, [z])]).
Proof.
  induction K as [|a K IH]; intros Hnd; simpl; [reflexivity|].
  inversion Hnd as [|? ? Ha HK]; subst.
  destruct (key_eqb kz a) eqn:E; simpl.
  - apply key_eqb_eq in E. subst a. rewrite app_nil_r. f_equal.
    apply map_ext_in. intros k Hk.
    destruct (key_eqb kz k) eqn:E'.
    + apply key_eqb_eq in E'. subst k. contradiction.
    + rewrite app_nil_r. reflexivity.
  - rewrite app_nil_r. rewrite IH by assumption. reflexivity.
Qed.

Lemma members_snoc k p z :
  members key k (p ++ [z]) = members key k p ++ (if key_eqb (key z) k then [z] else []).
Proof. unfold members. rewrite filter_app. reflexivity. Qed.

Lemma members_nil k p : (forall y, In y p -> key y <> k) -> members key k p = [].
Proof.
  intros H. unfold members. induction p as [|a p IH]; simpl; [reflexivity|].
  destruct (key_eqb (key a) k) eqn:E.
  - apply key_eqb_eq in E. exfalso. apply (H a); simpl; auto.
  - apply IH. intros y Hy. apply H. simpl. auto.
Qed.

(** The object built by the [forEach]: one entry per front colour, in the
    order of first occurrence, holding the lanes of that colour in array
    order. *)
Lemma groupsOf_eq p : groupsOf key p = map (fun k => (k, members key k p)) (firstKeys key p).
Proof.
  induction p as [|z p IH] using rev_ind; [reflexivity|].
  rewrite groupsOf_snoc, IH, addToGroup_map by apply firstKeys_NoDup.
  rewrite firstKeys_snoc. unfold addKey.
  destruct (existsb (key_eqb (key z)) (firstKeys key p)) eqn:E.
  - rewrite app_nil_r. apply map_ext. intros k. rewrite members_snoc. reflexivity.
  - rewrite map_app. simpl. f_equal.
    + apply map_ext. intros k. rewrite members_snoc. reflexivity.
    + rewrite members_snoc.
      replace (key_eqb (key z) (key z)) with true
        by (symmetry; apply key_eqb_eq; reflexivity).
      rewrite members_nil; [reflexivity|].
      intros y Hy Ey.
      assert (Hin : In (key z) (firstKeys key p)) by (apply firstKeys_In; eauto).
      apply existsb_key in Hin. congruence.
Qed.

(** The group of key [k] is created when the first lane [x] of that key is
    met; every lane met earlier belongs to a group created earlier. *)
Lemma firstKeys_split p K1 k K2 :
  firstKeys key p = K1 ++ k :: K2 ->
  exists p1 x p2,
    p = p1 ++ x :: p2 /\ key x = k /\ forall y, In y p1 -> In (key y) K1.
Proof.
  revert K1 k K2. induction p as [|z p IH] using rev_ind; intros K1 k K2 E.
  - destruct K1; discriminate.
  - rewrite firstKeys_snoc in E. unfold addKey in E.
    destruct (existsb (key_eqb (key z)) (firstKeys key p)) eqn:Ez.
    + destruct (IH _ _ _ E) as (p1 & x & p2 & Ep & Ex & H1).
      exists p1, x, (p2 ++ [z]). rewrite Ep, <- app_assoc. simpl. auto.
    + destruct K2 as [|w K2] using rev_ind.
      * apply app_inj_tail in E. destruct E as [EK Ek].
        exists p, z, []. split; [reflexivity|]. split; [assumption|].
        intros y Hy. rewrite <- EK. apply firstKeys_In. eauto.
      * clear IHK2.
        change (firstKeys key p ++ [key z] = K1 ++ (k :: K2) ++ [w]) in E.
        rewrite app_assoc in E. apply app_inj_tail in E. destruct E as [EK _].
        destruct (IH _ _ _ EK) as (p1 & x & p2 & Ep & Ex & H1).
        exists p1, x, (p2 ++ [z]). rewrite Ep, <- app_assoc. simpl. auto.
Qed.
End Grouping.

(** ** selectNextLine: postcondition *)

Lemma dispatchable_In s id : In id (dispatchable s) <-> candidateLane s id.
Proof.
  unfold dispatchable, candidateLane.
  rewrite filter_In, andb_true_iff, negb_true_iff, LineStatus_eqb_neq, Nat.ltb_lt.
  pose proof (lineIds_all id).
  destruct (cars (lines s id)); simpl; split; intuition (try lia; try congruence).
Qed.

Lemma fold_left_sum {A : Type} (f : A -> nat) l a :
  fold_left (fun sum x => sum + f x) l a = a + list_sum (map f l).
Proof.
  revert a. induction l as [|x l IH]; intros a; simpl; [lia|].
  rewrite IH. lia.
Qed.

Lemma filter_length_count (c : Color) l :
  length (filter (fun c' => Color_eqb c' c) l) = count_occ Color_eq_dec l c.
Proof.
  induction l as [|a l IH]; simpl; [reflexivity|].
  unfold Color_eqb at 1. destruct (Color_eq_dec a c); simpl; rewrite IH; reflexivity.
Qed.

Lemma filter_twice {A : Type} (f g : A -> bool) l :
  filter g (filter f l) = filter (fun x => f x && g x) l.
Proof.
  induction l as [|a l IH]; simpl; [reflexivity|].
  destruct (f a); simpl; [destruct (g a)|]; rewrite IH; reflexivity.
Qed.

(** The total the comparator of [selectNextLine] computes for a group is the
    run weight of its colour. *)
Lemma groupTotal_runWeight s c :
  groupTotal s (Some c, members (frontColor s) (Some c) (dispatchable s)) = runWeight s c.
Proof.
  assert (El : members (frontColor s) (Some c) (dispatchable s) = groupLanes s c).
  { unfold members, dispatchable, groupLanes. rewrite filter_twice.
    apply filter_ext. intros id. unfold frontColor.
    destruct (cars (lines s id)); simpl;
      destruct (LineStatus_eqb _ _); reflexivity. }
  unfold groupTotal, runWeight. simpl. rewrite El, fold_left_sum. simpl. f_equal.
  apply map_ext. intros id. apply filter_length_count.
Qed.

(** The lane returned on a non-empty candidate array: the first candidate
    whose group has the largest total, every candidate in front of it
    belonging to a group of strictly smaller total. *)
Lemma selectNextLine_core s :
  dispatchable s <> [] ->
  exists p1 x p2,
    selectNextLine s = Some x
    /\ dispatchable s = p1 ++ x :: p2
    /\ (forall y, In y p1 -> frontColor s y <> frontColor s x)
    /\ (forall y, In y p1 ->
          groupTotal s (frontColor s y, members (frontColor s) (frontColor s y) (dispatchable s))
          < groupTotal s (frontColor s x, members (frontColor s) (frontColor s x) (dispatchable s)))
    /\ (forall y, In y (dispatchable s) ->
          groupTotal s (frontColor s y, members (frontColor s) (frontColor s y) (dispatchable s))
          <= groupTotal s (frontColor s x, members (frontColor s) (frontColor s x) (dispatchable s))).
Proof.
  intros Hne. unfold selectNextLine. fold (dispatchable s).
  change (fold_left _ (dispatchable s) [])
    with (groupsOf (frontColor s) (dispatchable s)).
  set (cand := dispatchable s) in *.
  set (key := frontColor s) in *.
  destruct cand as [|a cand'] eqn:Ecand; [congruence|]. rewrite <- Ecand in *.
  clear Hne. rewrite groupsOf_eq.
  set (F := fun k => (k, members key k cand)).
  destruct (array_sort _ (map F (firstKeys key cand))) as [|[k ids] r] eqn:Hs.
  - exfalso. apply array_sort_nil in Hs. apply map_eq_nil in Hs.
    assert (Hin : In (key a) (firstKeys key cand)).
    { apply firstKeys_In. exists a. rewrite Ecand. simpl. auto. }
    rewrite Hs in Hin. destruct Hin.
  - assert (Hcmp : forall g1 g2 : option Color * list LineId,
               (Z.of_nat (groupTotal s g2) - Z.of_nat (groupTotal s g1))%Z
               = (- Z.of_nat (groupTotal s g1) - - Z.of_nat (groupTotal s g2))%Z)
      by (intros; lia).
    destruct (@array_sort_head _ _ (fun g => (- Z.of_nat (groupTotal s g))%Z)
                Hcmp _ _ _ Hs)
      as (G1 & G2 & EG & HG1 & HG2).
    apply map_eq_app in EG. destruct EG as (K1 & K' & EK & EG1 & EG2).
    apply map_eq_cons in EG2. destruct EG2 as (k' & K2 & EK' & EF & EG2).
    subst K'. unfold F in EF. inversion EF; subst k' ids. clear EF.
    destruct (firstKeys_split _ _ _ _ _ EK) as (p1 & x & p2 & Ep & Ex & Hp1).
    pose proof (firstKeys_NoDup key cand) as Hnd. rewrite EK in Hnd.
    apply NoDup_remove_2 in Hnd.
    assert (Hk1 : forall y, In y p1 -> key y <> k).
    { intros y Hy E. apply Hnd. apply in_or_app. left. rewrite <- E. auto. }
    exists p1, x, p2. rewrite Ex. split; [|split; [assumption|split; [assumption|split]]].
    + unfold members. rewrite Ep, filter_app. fold (members key k p1).
      rewrite members_nil by assumption. simpl.
      replace (key_eqb (key x) k) with true by (symmetry; apply key_eqb_eq; assumption).
      reflexivity.
    + intros y Hy.
      assert (HyG : In (F (key y)) G1) by (rewrite <- EG1; apply in_map; auto).
      specialize (HG1 _ HyG). unfold F in HG1. lia.
    + intros y Hy.
      assert (HyK : In (key y) (firstKeys key cand)) by (apply firstKeys_In; eauto).
      rewrite EK in HyK. apply in_app_or in HyK. destruct HyK as [HyK|[HyK|HyK]].
      * assert (HyG : In (F (key y)) G1) by (rewrite <- EG1; apply in_map; auto).
        specialize (HG1 _ HyG). unfold F in HG1. lia.
      * rewrite HyK. lia.
      * assert (HyG : In (F (key y)) G2) by (rewrite <- EG2; apply in_map; auto).
        specialize (HG2 _ HyG). unfold F in HG2. lia.
Qed.

(** C4.  Postcondition of [selectNextLine], for every state.  The result is
    null exactly when no lane is a candidate (not broken down, at least one
    queued car).  Otherwise the result is a candidate lane, the first lane in
    lane-id order of the group of its front colour [c]; the run weight of [c]
    (cars of colour [c] anywhere in the queues of the lanes of its group) is
    the largest among the groups; and a group of the same run weight starts
    at a later lane, so ties go to the group met first in lane-id order. *)
Theorem selectNextLine_postcondition (s : Simulator) :
  (selectNextLine s = None <-> forall id, ~ candidateLane s id)
  /\ forall id, selectNextLine s = Some id ->
       candidateLane s id
       /\ exists c,
            frontColor s id = Some c
            /\ (forall id', candidateLane s id' -> frontColor s id' = Some c ->
                  lineIndex id <= lineIndex id')
            /\ (forall id' c', candidateLane s id' -> frontColor s id' = Some c' ->
                  runWeight s c' <= runWeight s c)
            /\ (forall id' c', candidateLane s id' -> frontColor s id' = Some c' ->
                  runWeight s c' = runWeight s c -> lineIndex id <= lineIndex id').
Proof.
  destruct (dispatchable s) as [|a l] eqn:Ed.
  - assert (Hnone : selectNextLine s = None).
    { unfold selectNextLine. fold (dispatchable s). rewrite Ed. reflexivity. }
    assert (Hno : forall id, ~ candidateLane s id).
    { intros id H. apply dispatchable_In in H. rewrite Ed in H. destruct H. }
    rewrite Hnone. split; [tauto|]. discriminate.
  - assert (Hne : dispatchable s <> []) by congruence.
    destruct (@selectNextLine_core s Hne) as (p1 & x & p2 & Hsel & Ep & Hk & Hlt & Hle).
    rewrite Hsel. split.
    + split; [discriminate|]. intros Hno. exfalso. apply (Hno a).
      apply dispatchable_In. rewrite Ed. left. reflexivity.
    + intros id E. inversion E; subst id. clear E.
      assert (Hx : candidateLane s x).
      { apply dispatchable_In. rewrite Ep. apply in_or_app. right. left. reflexivity. }
      split; [assumption|].
      destruct (frontColor s x) as [c|] eqn:Ec.
      2:{ exfalso. unfold frontColor in Ec. destruct Hx as [_ Hx].
          destruct (cars (lines s x)); [congruence|discriminate]. }
      exists c. split; [reflexivity|].
      destruct (laneOrdered_filter _ _ _ _ Ep) as [_ Hafter].
      assert (Hpos : forall id', In id' (dispatchable s) -> ~ In id' p1 ->
                       lineIndex x <= lineIndex id').
      { intros id' Hin Hn1. rewrite Ep in Hin. apply in_app_or in Hin.
        destruct Hin as [Hin|[Hin|Hin]]; [contradiction|subst; lia|].
        specialize (Hafter _ Hin). lia. }
      rewrite groupTotal_runWeight in Hlt, Hle.
      split; [|split].
      * intros id' Hc Hf. apply Hpos; [apply dispatchable_In, Hc|].
        intros Hin. apply (Hk _ Hin). assumption.
      * intros id' c' Hc Hf. apply dispatchable_In in Hc.
        specialize (Hle _ Hc). rewrite Hf, groupTotal_runWeight in Hle. assumption.
      * intros id' c' Hc Hf Hw. apply Hpos; [apply dispatchable_In, Hc|].
        intros Hin. specialize (Hlt _ Hin).
        rewrite Hf, groupTotal_runWeight in Hlt. lia.
Qed.

(** ** Effect of each operation on the lanes and on the car count *)

Lemma laneGrows_refl l : laneGrows l l.
Proof. unfold laneGrows. tauto. Qed.

Lemma laneGrows_trans l1 l2 l3 : laneGrows l1 l2 -> laneGrows l2 l3 -> laneGrows l1 l3.
Proof.
  unfold laneGrows. intros (S1 & K1 & O1' & B1 & H1) (S2 & K2 & O2' & B2 & H2).
  repeat split; try congruence.
  intros H. rewrite K1 in H2. auto.
Qed.

Lemma lanesTotal_upd f id l :
  lanesTotal (upd_line f id l) + length (cars (f id)) = lanesTotal f + length (cars l).
Proof.
  destruct id; unfold lanesTotal; simpl;
    rewrite upd_line_same, !upd_line_other by discriminate; lia.
Qed.

Lemma pushCar_lines id car s id' :
  lines (pushCar id car s) id'
  = if LineId_eq_dec id id'
    then set_cars (cars (lines s id) ++ [car]) (lines s id)
    else lines s id'.
Proof. reflexivity. Qed.

Lemma pushCar_grows id car s id' :
  length (cars (lines s id)) < capacity (lines s id) ->
  laneGrows (lines s id') (lines (pushCar id car s) id').
Proof.
  intros Hroom. rewrite pushCar_lines. destruct (LineId_eq_dec id id').
  - subst id'. unfold laneGrows. simpl. rewrite length_app. simpl.
    repeat split; try reflexivity. lia.
  - apply laneGrows_refl.
Qed.

Lemma pushCar_count id car s :
  carCount (pushCar id car s) = S (carCount s).
Proof.
  unfold carCount, pushCar. simpl.
  pose proof (lanesTotal_upd (lines s) id
                (set_cars (cars (lines s id) ++ [car]) (lines s id))) as H.
  simpl in H. rewrite length_app in H. simpl in H.
  unfold inSlot. simpl. lia.
Qed.

(** The two outcomes of [placeCar]: the car is pushed on a lane chosen by
    [findBestLine], or it goes back to the front of the buffer (with or
    without an alert). *)
Lemma placeCar_cases car o s :
  (exists id o',
      findBestLine car o' s = Some id
      /\ placeCar car o s = (pushCar id car s, Some id))
  \/ (exists n,
         placeCar car o s
         = (set_activeAlerts n (set_carBuffer (car :: carBuffer s) s), None)).
Proof.
  unfold placeCar.
  destruct (negb (OvenStatus_eqb (ovenStatus (ovens s o)) OvenActive)).
  - destruct (OvenStatus_eqb (ovenStatus (ovens s (alternate o))) OvenActive).
    + destruct (findBestLine car (alternate o) s) as [id|] eqn:E.
      * left. eauto.
      * right. exists (activeAlerts s). reflexivity.
    + right. exists (activeAlerts s). reflexivity.
  - destruct (findBestLine car o s) as [id|] eqn:E.
    + left. eauto.
    + destruct (findBestLine car (alternate o) s) as [id|] eqn:E'.
      * left. eauto.
      * right. eauto.
Qed.

Lemma allocateOne_grows o s id :
  laneGrows (lines s id) (lines (fst (allocateOne o s)) id).
Proof.
  unfold allocateOne, shiftCar. destruct (carBuffer s) as [|car rest] eqn:Eb.
  - apply laneGrows_refl.
  - destruct (placeCar_cases car o (set_carBuffer rest s))
      as [(x & o' & Hf & E)|(n & E)]; rewrite E; simpl.
    + apply findBestLine_spare in Hf. destruct Hf as [_ Hroom].
      apply (pushCar_grows x car (set_carBuffer rest s) id Hroom).
    + apply laneGrows_refl.
Qed.

Lemma allocateOne_count o s : carCount (fst (allocateOne o s)) = carCount s.
Proof.
  unfold allocateOne, shiftCar. destruct (carBuffer s) as [|car rest] eqn:Eb.
  - reflexivity.
  - destruct (placeCar_cases car o (set_carBuffer rest s))
      as [(x & o' & Hf & E)|(n & E)]; rewrite E; simpl.
    + rewrite pushCar_count. unfold carCount, inSlot. simpl. rewrite Eb. simpl. lia.
    + unfold carCount, inSlot. simpl. rewrite Eb. reflexivity.
Qed.

Lemma for_loop_invariant {St : Type} (I : St -> Prop) (body : nat -> St -> St) :
  (forall i st, I st -> I (body i st)) ->
  forall n from st, I st -> I (for_loop n from body st).
Proof.
  intros Hbody. induction n as [|n IH]; intros from st H; simpl; auto.
Qed.

Lemma refreshStatuses_lines s id :
  lines (refreshStatuses s) id = refreshStatus (lines s id).
Proof. destruct id; reflexivity. Qed.

Lemma refreshStatuses_count s : carCount (refreshStatuses s) = carCount s.
Proof.
  unfold carCount.
  replace (lanesTotal (lines (refreshStatuses s))) with (lanesTotal (lines s));
    [reflexivity|].
  unfold lanesTotal. apply f_equal. apply map_ext. intros id.
  rewrite refreshStatuses_lines. unfold refreshStatus.
  destruct (capacity (lines s id) <=? length (cars (lines s id))); [reflexivity|].
  destruct (LineStatus_eqb (status (lines s id)) Full); reflexivity.
Qed.

Lemma laneKeeps_refl l : laneKeeps l l.
Proof. unfold laneKeeps. tauto. Qed.

Lemma laneKeeps_trans l1 l2 l3 : laneKeeps l1 l2 -> laneKeeps l2 l3 -> laneKeeps l1 l3.
Proof.
  unfold laneKeeps. intros (K1 & O1' & B1 & U1 & C1' & H1) (K2 & O2' & B2 & U2 & C2' & H2).
  split; [congruence|]. split; [congruence|]. split; [congruence|].
  split; [auto|]. split; auto.
Qed.

Lemma refreshStatus_keeps l l' :
  laneGrows l l' -> laneKeeps l (refreshStatus l').
Proof.
  intros (St & K & O & B & Hc). unfold refreshStatus.
  destruct (capacity l' <=? length (cars l')) eqn:E.
  - apply Nat.leb_le in E. unfold laneKeeps, laneOK. simpl.
    repeat split; try assumption; try discriminate; try lia.
  - apply Nat.leb_gt in E.
    destruct (LineStatus_eqb (status l') Full) eqn:Ef; unfold laneKeeps, laneOK; simpl;
      repeat split; try assumption; try discriminate; try congruence; try lia.
Qed.

Lemma processIncomingCars_keeps draws s id :
  laneKeeps (lines s id) (lines (processIncomingCars draws s) id).
Proof.
  unfold processIncomingCars. destruct (carBuffer s) as [|c b]; [apply laneKeeps_refl|].
  rewrite refreshStatuses_lines. apply refreshStatus_keeps.
  apply (for_loop_invariant (fun st => laneGrows (lines s id) (lines st id))).
  - intros i st H. eapply laneGrows_trans; [exact H|apply allocateOne_grows].
  - apply laneGrows_refl.
Qed.

Lemma processIncomingCars_count draws s :
  carCount (processIncomingCars draws s) = carCount s.
Proof.
  unfold processIncomingCars. destruct (carBuffer s) as [|c b]; [reflexivity|].
  rewrite refreshStatuses_count.
  apply (for_loop_invariant (fun st => carCount st = carCount s)).
  - intros i st H. rewrite allocateOne_count. assumption.
  - reflexivity.
Qed.

(** *** processMainLine *)

Lemma processMainLine_cases s :
  match currentCar (mainLine s) with
  | Some car => processMainLine s = retired car s
  | None =>
      processMainLine s = s
      \/ exists id car rest line',
           selectNextLine s = Some id
           /\ cars (lines s id) = car :: rest
           /\ cars line' = rest
           /\ capacity line' = capacity (lines s id)
           /\ oven line' = oven (lines s id)
           /\ lastBreakdown line' = lastBreakdown (lines s id)
           /\ (status line' = status (lines s id)
               \/ (status (lines s id) = Full /\ status line' = Active))
           /\ processMainLine s = loaded id car line' s
  end.
Proof.
  unfold processMainLine. destruct (currentCar (mainLine s)) as [car|]; [reflexivity|].
  destruct (selectNextLine s) as [id|] eqn:Hsel; [|left; reflexivity].
  destruct (cars (lines s id)) as [|car rest] eqn:Hc; [left; reflexivity|].
  right. exists id, car, rest. eexists. split; [reflexivity|]. split; [exact Hc|].
  repeat match goal with |- _ /\ _ => split end; [| | | | |reflexivity].
  - destruct (_ && _); reflexivity.
  - destruct (_ && _); reflexivity.
  - destruct (_ && _); reflexivity.
  - destruct (_ && _); reflexivity.
  - simpl. destruct (LineStatus_eqb (status (lines s id)) Full) eqn:Ef; simpl.
    + apply LineStatus_eqb_eq in Ef. destruct (_ <? _); simpl; auto.
    + left. reflexivity.
Qed.

Lemma processMainLine_count s : carCount (processMainLine s) = carCount s.
Proof.
  pose proof (processMainLine_cases s) as H. unfold carCount, inSlot in *.
  destruct (currentCar (mainLine s)) as [car|] eqn:Ec.
  - rewrite H. simpl. lia.
  - destruct H as [H|(id & car & rest & line' & _ & Hc & Hr & _ & _ & _ & _ & H)];
      rewrite H; [rewrite Ec; reflexivity|].
    unfold loaded. simpl.
    pose proof (lanesTotal_upd (lines s) id line') as Hl.
    rewrite Hc, Hr in Hl. simpl in Hl. lia.
Qed.

Lemma processMainLine_keeps s id :
  laneKeeps (lines s id) (lines (processMainLine s) id).
Proof.
  pose proof (processMainLine_cases s) as H.
  destruct (currentCar (mainLine s)) as [car|].
  - rewrite H. apply laneKeeps_refl.
  - destruct H as [H|(x & car & rest & line' & _ & Hc & Hr & Hk & Ho & Hb & Hs & H)];
      rewrite H; [apply laneKeeps_refl|].
    unfold loaded. simpl. unfold upd_line. destruct (LineId_eq_dec x id); [|apply laneKeeps_refl].
    subst x. unfold laneKeeps, laneOK. rewrite Hk, Ho, Hb, Hr, Hc. simpl.
    repeat split; try lia.
    destruct Hs as [Hs|[_ Hs]]; congruence.
Qed.

(** *** simulateBreakdown, recovery timer, tick *)

Lemma simulateBreakdown_cases r now s :
  simulateBreakdown r now s = (s, None)
  \/ exists id,
       In id (activeLanes s)
       /\ 2 < length (activeLanes s)
       /\ (15000 < now - lastBreakdown (lines s id))%Z
       /\ simulateBreakdown r now s = (marked id now s, Some id).
Proof.
  unfold simulateBreakdown. fold (activeLanes s).
  destruct (2 <? length (activeLanes s)) eqn:E2; [|left; reflexivity].
  destruct (nth_error (activeLanes s) (r mod length (activeLanes s))) as [id|] eqn:En;
    [|left; reflexivity].
  destruct (15000 <? now - lastBreakdown (lines s id))%Z eqn:Ec; [|left; reflexivity].
  right. exists id. apply Nat.ltb_lt in E2. apply Z.ltb_lt in Ec.
  apply nth_error_In in En. auto.
Qed.

Lemma activeLanes_In s id : In id (activeLanes s) <-> status (lines s id) = Active.
Proof.
  unfold activeLanes. rewrite filter_In, LineStatus_eqb_eq.
  pose proof (lineIds_all id). tauto.
Qed.

Lemma recoveryTimer_keeps x s id :
  laneKeeps (lines s id) (lines (recoveryTimer x s) id).
Proof.
  unfold recoveryTimer.
  destruct (LineStatus_eqb (status (lines s x)) Unavailable) eqn:E;
    [|apply laneKeeps_refl].
  apply LineStatus_eqb_eq in E. simpl. unfold upd_line.
  destruct (LineId_eq_dec x id); [|apply laneKeeps_refl]. subst x.
  unfold laneKeeps, laneOK. simpl.
  split; [reflexivity|]. split; [reflexivity|]. split; [reflexivity|].
  split; [discriminate|]. split; [tauto|].
  intros [H1 H2]. split; [assumption|]. intros Hc. specialize (H2 Hc). congruence.
Qed.

Lemma recoveryTimer_count x s : carCount (recoveryTimer x s) = carCount s.
Proof.
  unfold recoveryTimer.
  destruct (LineStatus_eqb (status (lines s x)) Unavailable); [|reflexivity].
  unfold carCount, inSlot. simpl.
  pose proof (lanesTotal_upd (lines s) x (set_status Active (lines s x))) as H.
  simpl in H. lia.
Qed.

Lemma tick_unfold inp s :
  tick inp s
  = if negb (isRunning s) || isPaused s then (s, None)
    else (tickTail inp (fst (tickRoll inp s)), snd (tickRoll inp s)).
Proof.
  unfold tick, tickTail, afterAllocation, tickRoll.
  destruct (negb (isRunning s) || isPaused s); [reflexivity|].
  destruct (if breakdownRoll inp then _ else _) as [s1 timer]. reflexivity.
Qed.

Lemma tickTail_lines inp s1 :
  lines (tickTail inp s1)
  = lines (processMainLine (processIncomingCars (ovenDraws inp) s1)).
Proof.
  unfold tickTail, afterAllocation. simpl. destruct (_ <=? _)%Z; reflexivity.
Qed.

Lemma tickTail_keeps inp s1 id :
  laneKeeps (lines s1 id) (lines (tickTail inp s1) id).
Proof.
  rewrite tickTail_lines.
  eapply laneKeeps_trans; [apply processIncomingCars_keeps|apply processMainLine_keeps].
Qed.

Lemma tickTail_count inp s1 : carCount (tickTail inp s1) = carCount s1.
Proof.
  rewrite <- (processIncomingCars_count (ovenDraws inp) s1).
  rewrite <- (processMainLine_count (processIncomingCars (ovenDraws inp) s1)).
  unfold tickTail, afterAllocation, carCount, inSlot. simpl.
  destruct (_ <=? _)%Z; reflexivity.
Qed.

Lemma tickRoll_cases inp s :
  tickRoll inp s = (s, None)
  \/ exists id,
       In id (activeLanes s)
       /\ 2 < length (activeLanes s)
       /\ (15000 < breakdownNow inp - lastBreakdown (lines s id))%Z
       /\ tickRoll inp s = (marked id (breakdownNow inp) s, Some id).
Proof.
  unfold tickRoll. destruct (breakdownRoll inp); [|left; reflexivity].
  apply simulateBreakdown_cases.
Qed.

Lemma marked_same id now s :
  lines (marked id now s) id
  = set_lastBreakdown now (set_status Unavailable (lines s id)).
Proof. unfold marked. simpl. apply upd_line_same. Qed.

Lemma marked_other id id' now s :
  id <> id' -> lines (marked id now s) id' = lines s id'.
Proof. intros H. unfold marked. simpl. apply upd_line_other, H. Qed.

Lemma marked_count id now s : carCount (marked id now s) = carCount s.
Proof.
  unfold carCount, inSlot, marked. simpl.
  pose proof (lanesTotal_upd (lines s) id
                (set_lastBreakdown now (set_status Unavailable (lines s id)))) as H.
  simpl in H. lia.
Qed.

Lemma tick_count inp s : carCount (fst (tick inp s)) = carCount s.
Proof.
  rewrite tick_unfold. destruct (negb (isRunning s) || isPaused s); [reflexivity|].
  simpl. rewrite tickTail_count.
  destruct (tickRoll_cases inp s) as [E|(id & _ & _ & _ & E)]; rewrite E; simpl;
    [reflexivity|apply marked_count].
Qed.

(** The effect of a tick on one lane: either the lane is the one the tick
    marks ['unavailable'] (it was ['active'] and out of its cooldown) and the
    rest of the tick keeps the marked lane, or the tick keeps the lane. *)
Lemma tick_lanes inp s id :
  (snd (tick inp s) <> Some id
   /\ laneKeeps (lines s id) (lines (fst (tick inp s)) id))
  \/ (snd (tick inp s) = Some id
      /\ status (lines s id) = Active
      /\ 2 < length (activeLanes s)
      /\ (15000 < breakdownNow inp - lastBreakdown (lines s id))%Z
      /\ laneKeeps
           (set_lastBreakdown (breakdownNow inp) (set_status Unavailable (lines s id)))
           (lines (fst (tick inp s)) id)).
Proof.
  rewrite tick_unfold. destruct (negb (isRunning s) || isPaused s).
  - left. split; [discriminate|apply laneKeeps_refl].
  - cbn [fst snd].
    destruct (tickRoll_cases inp s) as [E|(x & Hx & Hn & Hc & E)]; rewrite E;
      cbn [fst snd].
    + left. split; [discriminate|apply tickTail_keeps].
    + destruct (LineId_eq_dec x id) as [->|Hne].
      * right. apply activeLanes_In in Hx.
        split; [reflexivity|]. split; [assumption|]. split; [assumption|].
        split; [assumption|].
        pose proof (tickTail_keeps inp (marked id (breakdownNow inp) s) id) as H.
        rewrite marked_same in H. exact H.
      * left. split; [congruence|].
        pose proof (tickTail_keeps inp (marked x (breakdownNow inp) s) id) as H.
        rewrite marked_other in H by assumption. exact H.
Qed.

(** ** Reachable states *)

Lemma array_set_length {A : Type} (l : list A) i x : length (array_set l i x) = length l.
Proof.
  revert i. induction l as [|a l IH]; intros [|i]; simpl; try reflexivity.
  rewrite IH. reflexivity.
Qed.

Lemma array_swap_length {A : Type} (l : list A) i j : length (array_swap l i j) = length l.
Proof.
  unfold array_swap. destruct (nth_error l i); [|reflexivity].
  destruct (nth_error l j); [|reflexivity].
  rewrite !array_set_length. reflexivity.
Qed.

Lemma shuffleArray_length rnd array : length (shuffleArray rnd array) = length array.
Proof.
  unfold shuffleArray. generalize (length array - 1) as i. intros i. revert array.
  induction i as [|i IH]; intros array; simpl; [reflexivity|].
  rewrite IH, array_swap_length. reflexivity.
Qed.

(** [reset] generates 25+20+15+15+12+8+7+6+4+3+3+2 = 120 cars, all of them in
    the backlog. *)
Lemma reset_count inp : carCount (reset inp) = 120.
Proof.
  unfold carCount, inSlot, reset. simpl carBuffer. rewrite shuffleArray_length.
  reflexivity.
Qed.

Lemma reset_laneOK inp id : laneOK (lines (reset inp) id).
Proof. destruct id; unfold laneOK; simpl; split; (lia || discriminate). Qed.

Lemma step_count s e : isReset e = false -> carCount (step s e) = carCount s.
Proof.
  destruct e as [inp| | |inp|x]; simpl; intros H.
  - discriminate.
  - reflexivity.
  - reflexivity.
  - apply tick_count.
  - apply recoveryTimer_count.
Qed.

Lemma marked_laneOK now l :
  status l = Active -> laneOK l -> laneOK (set_lastBreakdown now (set_status Unavailable l)).
Proof.
  unfold laneOK. simpl. intros Ha [H1 H2]. split; [assumption|].
  intros Hc. specialize (H2 Hc). congruence.
Qed.

Lemma step_laneOK s e :
  (forall id, laneOK (lines s id)) -> forall id, laneOK (lines (step s e) id).
Proof.
  intros H id. destruct e as [inp| | |inp|x]; cbn [step].
  - apply reset_laneOK.
  - apply H.
  - apply H.
  - destruct (tick_lanes inp s id) as [[_ Hk]|(_ & Ha & _ & _ & Hk)].
    + apply Hk, H.
    + apply Hk. apply marked_laneOK; [assumption|apply H].
  - apply (recoveryTimer_keeps x s id), H.
Qed.

(** In every reachable state every lane is within its capacity, and a lane
    at capacity has status ['full']. *)
Lemma reachable_laneOK s : reachable s -> forall id, laneOK (lines s id).
Proof.
  induction 1 as [inp|s e Hr IH].
  - apply reset_laneOK.
  - apply step_laneOK, IH.
Qed.

Lemma reachable_run s evs : reachable s -> reachable (run s evs).
Proof.
  revert s. induction evs as [|e evs IH]; intros s H; simpl; [assumption|].
  apply IH. constructor. assumption.
Qed.

(** A lane that receives a car in an allocation iteration had room. *)
Lemma allocateOne_room o s id :
  snd (allocateOne o s) = Some id ->
  length (cars (lines s id)) < capacity (lines s id).
Proof.
  unfold allocateOne, shiftCar. destruct (carBuffer s) as [|car rest]; [discriminate|].
  destruct (placeCar_cases car o (set_carBuffer rest s))
    as [(x & o' & Hf & E)|(n & E)]; rewrite E; simpl; [|discriminate].
  intros Hx. inversion Hx; subst x. apply findBestLine_spare in Hf. apply Hf.
Qed.

(** ** The invariants *)

(** C1.  Car conservation: in every reachable state the cars of the backlog,
    of the lanes, of the conveyor slot (one if occupied) and the retired cars
    add up to the 120 cars generated by [reset]; and no event other than a
    reset (tick with or without breakdown, recovery timer, start, pause)
    changes that sum. *)
Theorem car_conservation (s : Simulator) :
  reachable s ->
  length (carBuffer s) + lanesTotal (lines s) + inSlot s + totalCarsProcessed s = 120
  /\ forall e, isReset e = false -> carCount (step s e) = carCount s.
Proof.
  intros Hr. split; [|intros e He; apply step_count, He].
  change (carCount s = 120).
  induction Hr as [inp|s e Hr IH].
  - apply reset_count.
  - destruct (isReset e) eqn:He.
    + destruct e; try discriminate. apply reset_count.
    + rewrite step_count by assumption. assumption.
Qed.

Lemma car_conservation_witness :
  reachable (step (step (reset sampleReset) EvStart) (EvTick sampleTick))
  /\ carCount (step (step (reset sampleReset) EvStart) (EvTick sampleTick)) = 120.
Proof.
  assert (H : reachable (step (step (reset sampleReset) EvStart) (EvTick sampleTick)))
    by (apply reach_step, reach_step, reach_init).
  split; [exact H|].
  exact (proj1 (car_conservation H)).
Defined.

(** C2.  Capacity invariant: in every reachable state every lane holds at
    least 0 and at most [capacity] cars; and in whatever state an allocation
    iteration runs, the lane that receives the car held strictly fewer cars
    than its capacity. *)
Theorem capacity_invariant (s : Simulator) :
  reachable s ->
  (forall id, 0 <= length (cars (lines s id)) <= capacity (lines s id))
  /\ (forall st o id,
        snd (allocateOne o st) = Some id ->
        length (cars (lines st id)) < capacity (lines st id)).
Proof.
  intros Hr. split.
  - intros id. split; [lia|]. apply (reachable_laneOK Hr id).
  - intros st o id. apply allocateOne_room.
Qed.

Lemma capacity_invariant_witness :
  reachable (step (step (reset sampleReset) EvStart) (EvTick sampleTick))
  /\ length (cars (lines (step (step (reset sampleReset) EvStart) (EvTick sampleTick)) L1))
     <= capacity (lines (step (step (reset sampleReset) EvStart) (EvTick sampleTick)) L1).
Proof.
  assert (H : reachable (step (step (reset sampleReset) EvStart) (EvTick sampleTick)))
    by (apply reach_step, reach_step, reach_init).
  split; [exact H|].
  exact (proj2 (proj1 (capacity_invariant H) L1)).
Defined.

(** ** Breakdowns *)

Lemma step_not_unavailable s e id :
  status (lines s id) = Full -> status (lines (step s e) id) <> Unavailable.
Proof.
  intros Hf Hu. destruct e as [inp| | |inp|x]; cbn [step] in Hu.
  - destruct id; discriminate.
  - simpl in Hu. congruence.
  - simpl in Hu. congruence.
  - destruct (tick_lanes inp s id) as [[_ Hk]|(_ & Ha & _)]; [|congruence].
    destruct Hk as (_ & _ & _ & Hk & _). specialize (Hk Hu). congruence.
  - destruct (recoveryTimer_keeps x s id) as (_ & _ & _ & Hk & _).
    specialize (Hk Hu). congruence.
Qed.

(** C10.  A lane never goes from ['full'] to ['unavailable']: no event takes
    a lane of status ['full'] to status ['unavailable']; in a reachable state
    a lane at capacity has status ['full'], so a breakdown roll neither picks
    nor changes it; and the lane a breakdown roll does pick has status
    ['active'], more than two lanes having that status. *)
Theorem full_never_unavailable (s : Simulator) :
  reachable s ->
  forall id,
    (forall e, status (lines s id) = Full -> status (lines (step s e) id) <> Unavailable)
    /\ (length (cars (lines s id)) = capacity (lines s id) ->
        status (lines s id) = Full
        /\ forall r now,
             snd (simulateBreakdown r now s) <> Some id
             /\ lines (fst (simulateBreakdown r now s)) id = lines s id)
    /\ (forall r now,
          snd (simulateBreakdown r now s) = Some id ->
          status (lines s id) = Active /\ 2 < length (activeLanes s)).
Proof.
  intros Hr id.
  assert (Hpick : forall r now,
             snd (simulateBreakdown r now s) = Some id ->
             status (lines s id) = Active /\ 2 < length (activeLanes s)).
  { intros r now.
    destruct (simulateBreakdown_cases r now s) as [E|(x & Hx & Hn & _ & E)];
      rewrite E; simpl; [discriminate|].
    intros Ex. inversion Ex; subst x. apply activeLanes_In in Hx. auto. }
  split; [intros e; apply step_not_unavailable|]. split; [|exact Hpick].
  intros Hcap. destruct (reachable_laneOK Hr id) as [_ Hfull].
  specialize (Hfull Hcap). split; [assumption|].
  intros r now.
  assert (Hno : snd (simulateBreakdown r now s) <> Some id).
  { intros E. apply Hpick in E. destruct E. congruence. }
  split; [assumption|].
  destruct (simulateBreakdown_cases r now s) as [E|(x & _ & _ & _ & E)];
    rewrite E in *; simpl in *; [reflexivity|].
  apply upd_line_other. congruence.
Qed.

Lemma full_never_unavailable_witness :
  reachable (reset sampleReset)
  /\ snd (simulateBreakdown 0 1000500 (reset sampleReset)) = Some L1
  /\ status (lines (reset sampleReset) L1) = Active
  /\ 2 < length (activeLanes (reset sampleReset)).
Proof.
  assert (H : reachable (reset sampleReset)) by apply reach_init.
  assert (Hb : snd (simulateBreakdown 0 1000500 (reset sampleReset)) = Some L1)
    by (vm_compute; reflexivity).
  split; [exact H|]. split; [exact Hb|].
  exact (proj2 (proj2 (full_never_unavailable H L1)) 0 1000500%Z Hb).
Defined.

Lemma step_lastBreakdown s e id :
  isReset e = false ->
  (exists T,
      breakdownOf s e = Some (id, T)
      /\ lastBreakdown (lines (step s e) id) = T
      /\ (lastBreakdown (lines s id) + 15000 < T)%Z)
  \/ ((forall T, breakdownOf s e <> Some (id, T))
      /\ lastBreakdown (lines (step s e) id) = lastBreakdown (lines s id)).
Proof.
  intros He. destruct e as [inp| | |inp|x]; cbn [step breakdownOf].
  - discriminate.
  - right. split; [discriminate|reflexivity].
  - right. split; [discriminate|reflexivity].
  - destruct (tick_lanes inp s id) as [[Hn Hk]|(Hs & _ & _ & Hc & Hk)].
    + right. split.
      * intros T E. destruct (snd (tick inp s)) as [x|]; [|discriminate].
        inversion E; subst. congruence.
      * apply Hk.
    + left. exists (breakdownNow inp). rewrite Hs. split; [reflexivity|].
      destruct Hk as (_ & _ & Hb & _). rewrite Hb. simpl. split; [reflexivity|lia].
  - right. split; [discriminate|]. apply (recoveryTimer_keeps x s id).
Qed.

(** Without a reset, the breakdown timestamp of a lane never decreases. *)
Lemma run_lastBreakdown s evs id :
  noReset evs = true ->
  (lastBreakdown (lines s id) <= lastBreakdown (lines (run s evs) id))%Z.
Proof.
  revert s. induction evs as [|e evs IH]; intros s H; simpl in *; [lia|].
  apply andb_true_iff in H. destruct H as [He Hevs]. apply negb_true_iff in He.
  specialize (IH (step s e) Hevs).
  destruct (@step_lastBreakdown s e id He) as [(T & _ & E & Hlt)|[_ E]]; lia.
Qed.

(** Lane L1 breaks down at time 1000500; a reset and a start follow; the
    breakdown roll of the next tick, at time 1001500, picks L1, whose
    [lastBreakdown] the reset has put back to 0, and marks it again. *)
Lemma cooldown_respected_counterexample :
  ~ cooldown_respected (start (reset sampleReset)) (EvTick sampleTick)
      [EvReset sampleReset; EvStart] (EvTick sampleTickSoon).
Proof.
  intros H.
  assert (H1 : breakdownOf (start (reset sampleReset)) (EvTick sampleTick)
               = Some (L1, 1000500%Z)) by (vm_compute; reflexivity).
  assert (H2 : breakdownOf
                 (run (step (start (reset sampleReset)) (EvTick sampleTick))
                    [EvReset sampleReset; EvStart])
                 (EvTick sampleTickSoon)
               = Some (L1, 1001500%Z)) by (vm_compute; reflexivity).
  specialize (H _ _ _ H1 H2). lia.
Qed.

(** C6 (amended).  Breakdown cooldown between two resets.  If an event breaks
    lane [id] down at time [T] (the lane is marked ['unavailable'] and its
    [lastBreakdown] becomes [T]), then whatever events other than a reset
    follow (ticks, recovery timers, start, pause), a later breakdown of lane
    [id], at time [T'], has [T + 15000 < T']: none happens at or before
    [T + 15000] ms. *)
Theorem breakdown_cooldown (s : Simulator) (e e' : Event) (evs : list Event)
        (id : LineId) (T T' : Z) :
  breakdownOf s e = Some (id, T) ->
  noReset evs = true ->
  breakdownOf (run (step s e) evs) e' = Some (id, T') ->
  lastBreakdown (lines (step s e) id) = T /\ (T + 15000 < T')%Z.
Proof.
  intros Hb Hevs Hb'.
  assert (He : isReset e = false) by (destruct e; simpl in *; congruence).
  assert (He' : isReset e' = false) by (destruct e'; simpl in *; congruence).
  destruct (@step_lastBreakdown s e id He) as [(T0 & E0 & El & _)|[Hn _]];
    [|exfalso; apply (Hn T); assumption].
  rewrite Hb in E0. assert (HT : T0 = T) by congruence. split; [congruence|].
  pose proof (@run_lastBreakdown (step s e) evs id Hevs) as Hmono.
  destruct (@step_lastBreakdown (run (step s e) evs) e' id He')
    as [(T1 & E1 & _ & Hlt)|[Hn _]]; [|exfalso; apply (Hn T'); assumption].
  rewrite Hb' in E1. assert (HT' : T1 = T') by congruence. lia.
Qed.

Lemma breakdown_cooldown_witness :
  breakdownOf (start (reset sampleReset)) (EvTick sampleTick) = Some (L1, 1000500%Z)
  /\ breakdownOf
       (run (step (start (reset sampleReset)) (EvTick sampleTick)) [EvTimer L1])
       (EvTick sampleTickLater)
     = Some (L1, 1020000%Z)
  /\ (1000500 + 15000 < 1020000)%Z.
Proof.
  assert (H1 : breakdownOf (start (reset sampleReset)) (EvTick sampleTick)
               = Some (L1, 1000500%Z)) by (vm_compute; reflexivity).
  assert (H2 : breakdownOf
                 (run (step (start (reset sampleReset)) (EvTick sampleTick)) [EvTimer L1])
                 (EvTick sampleTickLater)
               = Some (L1, 1020000%Z)) by (vm_compute; reflexivity).
  split; [exact H1|]. split; [exact H2|].
  exact (proj2 (@breakdown_cooldown _ _ _ [EvTimer L1] _ _ _ H1 eq_refl H2)).
Defined.

(** ** Alerts *)

Lemma countAlerts_alertCount s : countAlerts s = alertCount s.
Proof.
  unfold countAlerts, alertCount.
  assert (G : forall l a,
             fold_left
               (fun n line =>
                  if LineStatus_eqb (status line) Full
                     || LineStatus_eqb (status line) Unavailable
                  then S n else n)
               (map (lines s) l) a
             = a + length
                     (filter
                        (fun id =>
                           match status (lines s id) with
                           | Full | Unavailable => true
                           | Active => false
                           end)
                        l)).
  { induction l as [|x l IH]; intros a; simpl; [lia|].
    rewrite IH. destruct (status (lines s x)); simpl; lia. }
  apply (G lineIds 0).
Qed.

Lemma processMainLine_alerts n s :
  processMainLine (set_activeAlerts n s) = set_activeAlerts n (processMainLine s).
Proof.
  unfold processMainLine. simpl.
  destruct (currentCar (mainLine s)); [reflexivity|].
  change (selectNextLine (set_activeAlerts n s)) with (selectNextLine s).
  destruct (selectNextLine s) as [id|]; [|reflexivity].
  destruct (cars (lines s id)); reflexivity.
Qed.

Lemma afterAllocation_alerts inp n s2 :
  afterAllocation inp (set_activeAlerts n s2) = afterAllocation inp s2.
Proof.
  unfold afterAllocation. rewrite processMainLine_alerts.
  generalize (processMainLine s2) as s3. intros s3. simpl.
  destruct (_ <=? _)%Z; reflexivity.
Qed.

(** C7.  Alert recomputation.  After an executed tick (running, not paused)
    [activeAlerts] is the number of lanes whose status is ['full'] or
    ['unavailable'] in the state the tick leaves; the tick is the allocation
    phase followed by the rest, and the rest yields the same state whatever
    value the allocation phase left in [activeAlerts], so the allocator's
    increments are not observable after the tick. *)
Theorem alerts_recomputed (inp : TickInput) (s : Simulator) :
  isRunning s = true ->
  isPaused s = false ->
  activeAlerts (fst (tick inp s)) = alertCount (fst (tick inp s))
  /\ fst (tick inp s)
     = afterAllocation inp (processIncomingCars (ovenDraws inp) (fst (tickRoll inp s)))
  /\ forall n s2, afterAllocation inp (set_activeAlerts n s2) = afterAllocation inp s2.
Proof.
  intros Hr Hp. rewrite tick_unfold, Hr, Hp. cbn [negb orb fst].
  split; [|split].
  - rewrite <- countAlerts_alertCount. unfold tickTail, afterAllocation. simpl.
    destruct (_ <=? _)%Z; reflexivity.
  - reflexivity.
  - intros n s2. apply afterAllocation_alerts.
Qed.

Lemma alerts_recomputed_witness :
  isRunning (start (reset sampleReset)) = true
  /\ isPaused (start (reset sampleReset)) = false
  /\ activeAlerts (fst (tick sampleTick (start (reset sampleReset))))
     = alertCount (fst (tick sampleTick (start (reset sampleReset)))).
Proof.
  split; [reflexivity|]. split; [reflexivity|].
  exact (proj1 (@alerts_recomputed sampleTick (start (reset sampleReset)) eq_refl eq_refl)).
Defined.

(** ** The conveyor slot *)

Lemma sameConveyor_refl s : sameConveyor s s.
Proof. unfold sameConveyor. tauto. Qed.

Lemma sameConveyor_trans s1 s2 s3 :
  sameConveyor s1 s2 -> sameConveyor s2 s3 -> sameConveyor s1 s3.
Proof.
  unfold sameConveyor. intros (A1 & B1 & C1' & D1) (A2 & B2 & C2' & D2).
  repeat split; congruence.
Qed.

Lemma allocateOne_conveyor o s : sameConveyor s (fst (allocateOne o s)).
Proof.
  unfold allocateOne, shiftCar. destruct (carBuffer s) as [|car rest];
    [apply sameConveyor_refl|].
  destruct (placeCar_cases car o (set_carBuffer rest s))
    as [(x & o' & _ & E)|(n & E)]; rewrite E; unfold sameConveyor; simpl; tauto.
Qed.

Lemma processIncomingCars_conveyor draws s :
  sameConveyor s (processIncomingCars draws s).
Proof.
  unfold processIncomingCars. destruct (carBuffer s) as [|c b];
    [apply sameConveyor_refl|].
  apply sameConveyor_trans
    with (s2 := for_loop (Nat.min 2 (length (c :: b))) 0
                  (fun i st => fst (allocateOne (draws i) st)) s).
  - apply (for_loop_invariant (fun st => sameConveyor s st)).
    + intros i st H. eapply sameConveyor_trans; [exact H|apply allocateOne_conveyor].
    + apply sameConveyor_refl.
  - unfold sameConveyor. repeat split; reflexivity.
Qed.

Lemma tickRoll_conveyor inp s : sameConveyor s (fst (tickRoll inp s)).
Proof.
  destruct (tickRoll_cases inp s) as [E|(x & _ & _ & _ & E)]; rewrite E;
    unfold sameConveyor; simpl; tauto.
Qed.

Lemma pushRecent_spec car seq :
  pushRecent car seq
  = if length seq <? 15 then seq ++ [car] else tl (seq ++ [car]).
Proof.
  unfold pushRecent. rewrite length_app. simpl.
  destruct (length seq <? 15) eqn:E.
  - apply Nat.ltb_lt in E. destruct (15 <? length seq + 1) eqn:E'; [|reflexivity].
    apply Nat.ltb_lt in E'. lia.
  - apply Nat.ltb_ge in E. destruct (15 <? length seq + 1) eqn:E'; [reflexivity|].
    apply Nat.ltb_ge in E'. lia.
Qed.

(** C5.  One-tick conveyor residency.  [processMainLine] on an empty slot
    retires nothing and either changes nothing or moves the front car of one
    lane into the slot (that lane loses exactly that car, the others are
    untouched); on an occupied slot it retires the occupant ([recentSequence]
    gets its colour appended, the oldest entry leaving when 15 are already
    there; both counters grow by one; [currentCar] and [feedingFrom] are
    cleared) and selects nothing: lanes and backlog are unchanged.  Hence in
    one executed tick a car loaded is not retired: a tick that starts on an
    empty slot retires no car, and a tick that starts on an occupied slot ends
    with the slot empty. *)
Theorem conveyor_residency (s : Simulator) :
  match currentCar (mainLine s) with
  | None =>
      totalCarsProcessed (processMainLine s) = totalCarsProcessed s
      /\ processedThisHour (processMainLine s) = processedThisHour s
      /\ recentSequence (processMainLine s) = recentSequence s
      /\ (processMainLine s = s
          \/ exists id car rest,
               cars (lines s id) = car :: rest
               /\ cars (lines (processMainLine s) id) = rest
               /\ mainLine (processMainLine s) = mkMainLine (Some id) (Some car)
               /\ forall id', id' <> id -> lines (processMainLine s) id' = lines s id')
  | Some car =>
      recentSequence (processMainLine s)
      = (if length (recentSequence s) <? 15
         then recentSequence s ++ [car]
         else tl (recentSequence s ++ [car]))
      /\ totalCarsProcessed (processMainLine s) = S (totalCarsProcessed s)
      /\ processedThisHour (processMainLine s) = S (processedThisHour s)
      /\ mainLine (processMainLine s) = mkMainLine None None
      /\ lines (processMainLine s) = lines s
      /\ carBuffer (processMainLine s) = carBuffer s
  end
  /\ forall inp,
       isRunning s = true ->
       isPaused s = false ->
       match currentCar (mainLine s) with
       | None =>
           totalCarsProcessed (fst (tick inp s)) = totalCarsProcessed s
           /\ recentSequence (fst (tick inp s)) = recentSequence s
       | Some car =>
           totalCarsProcessed (fst (tick inp s)) = S (totalCarsProcessed s)
           /\ mainLine (fst (tick inp s)) = mkMainLine None None
       end.
Proof.
  split.
  - pose proof (processMainLine_cases s) as H.
    destruct (currentCar (mainLine s)) as [car|].
    + rewrite H. simpl. rewrite pushRecent_spec. repeat split; reflexivity.
    + destruct H as [H|(id & car & rest & line' & _ & Hc & Hr & _ & _ & _ & _ & H)];
        rewrite H.
      * repeat split; try reflexivity. left. reflexivity.
      * split; [reflexivity|]. split; [reflexivity|]. split; [reflexivity|].
        right. exists id, car, rest. unfold loaded. simpl.
        rewrite upd_line_same. repeat split; try assumption.
        intros id' Hne. apply upd_line_other. congruence.
  - intros inp Hr Hp. rewrite tick_unfold, Hr, Hp. cbn [negb orb fst].
    set (s1 := fst (tickRoll inp s)).
    set (s2 := processIncomingCars (ovenDraws inp) s1).
    assert (Hc : sameConveyor s s2).
    { eapply sameConveyor_trans;
        [apply tickRoll_conveyor|apply processIncomingCars_conveyor]. }
    destruct Hc as (Hm & Ht & _ & Hq).
    assert (Hf : totalCarsProcessed (tickTail inp s1)
                 = totalCarsProcessed (processMainLine s2)
                 /\ recentSequence (tickTail inp s1) = recentSequence (processMainLine s2)
                 /\ mainLine (tickTail inp s1) = mainLine (processMainLine s2)).
    { unfold tickTail, afterAllocation. fold s2. simpl.
      destruct (_ <=? _)%Z; repeat split; reflexivity. }
    destruct Hf as (Ft & Fq & Fm). rewrite Ft, Fq, Fm.
    pose proof (processMainLine_cases s2) as H. rewrite Hm in H.
    destruct (currentCar (mainLine s)) as [car|].
    + rewrite H. simpl. rewrite Ht. split; reflexivity.
    + destruct H as [H|(id & car & rest & line' & _ & _ & _ & _ & _ & _ & _ & H)];
        rewrite H; [split; assumption|].
      unfold loaded. simpl. split; assumption.
Qed.

(** ** pause while stopped *)

(** On the state the constructor builds (stopped, not paused) [pause] makes
    the snapshot read [is_paused = true]. *)
Lemma pause_unobservable_counterexample :
  ~ pause_unobservable 1000000 (reset sampleReset).
Proof.
  intros H. destruct (H eq_refl) as [_ H2]. simpl in H2. discriminate H2.
Qed.

(** C8 (amended).  [pause] on a stopped simulator sets [isPaused] and nothing
    else: the snapshot afterwards is the snapshot before with [is_paused]
    reading true, every other field of the state is unchanged, a tick still
    does nothing, and a later [start] gives the state [start] would have given
    without the [pause]. *)
Theorem pause_while_stopped (now : Z) (s : Simulator) :
  isRunning s = false ->
  getStatus now (pause s) = with_is_paused true (getStatus now s)
  /\ (isRunning (pause s) = isRunning s
      /\ totalCarsProcessed (pause s) = totalCarsProcessed s
      /\ processedThisHour (pause s) = processedThisHour s
      /\ hourStartTime (pause s) = hourStartTime s
      /\ recentSequence (pause s) = recentSequence s
      /\ carBuffer (pause s) = carBuffer s
      /\ ovens (pause s) = ovens s
      /\ lines (pause s) = lines s
      /\ mainLine (pause s) = mainLine s
      /\ lastFedLine (pause s) = lastFedLine s
      /\ activeAlerts (pause s) = activeAlerts s)
  /\ (forall inp, tick inp (pause s) = (pause s, None))
  /\ start (pause s) = start s.
Proof.
  intros Hr. split; [reflexivity|]. split; [repeat split; reflexivity|].
  split; [|reflexivity].
  intros inp. unfold tick. simpl. rewrite Hr. reflexivity.
Qed.

Lemma pause_while_stopped_witness :
  isRunning (reset sampleReset) = false
  /\ getStatus 1000000 (pause (reset sampleReset))
     = with_is_paused true (getStatus 1000000 (reset sampleReset)).
Proof.
  split; [reflexivity|].
  exact (proj1 (@pause_while_stopped 1000000 (reset sampleReset) eq_refl)).
Defined.

(** ** Requeue at the front of the backlog *)

Lemma saturated_reachable : reachable saturated.
Proof. apply reachable_run, reach_init. Qed.

(** The four lanes of O1 are full, the five lanes of O2 are broken down, and
    the backlog starts with a C1 car followed by a C2 car. *)
Lemma saturated_view :
  map (fun id => (status (lines saturated id), length (cars (lines saturated id)))) lineIds
  = [(Full, 14); (Full, 14); (Full, 14); (Full, 14);
     (Unavailable, 0); (Unavailable, 0); (Unavailable, 0); (Unavailable, 0);
     (Unavailable, 0)]
  /\ carBuffer saturated = C1 :: C2 :: skipn 2 (carBuffer saturated)
  /\ length (carBuffer saturated) = 45
  /\ snd (allocateOne O1 saturated) = None
  /\ snd (allocateOne O2 saturated) = None.
Proof. vm_compute. repeat split; reflexivity. Qed.

(** In the saturated state [processIncomingCars] dequeues the C1 car at the
    front of the backlog and fails to place it (the alert counter goes from 9
    to 10); its loop then runs a second time, dequeues that C1 car again and
    fails again (10 to 11).  The state it returns, with 11 alerts, is not the
    state one attempt and the status pass leave, with 10. *)
Lemma retried_next_tick_counterexample : ~ retried_next_tick (fun _ => O1) saturated.
Proof.
  intros H. destruct saturated_view as (_ & Hb & _ & Hfail & _).
  destruct (H C1 _ Hb Hfail) as [_ E].
  apply (f_equal activeAlerts) in E. vm_compute in E. discriminate E.
Qed.

Lemma allocateOne_failed o s car rest :
  carBuffer s = car :: rest ->
  snd (allocateOne o s) = None ->
  exists n,
    fst (allocateOne o s)
    = set_activeAlerts n (set_carBuffer (car :: rest) (set_carBuffer rest s)).
Proof.
  intros Hb. unfold allocateOne, shiftCar. rewrite Hb.
  destruct (placeCar_cases car o (set_carBuffer rest s))
    as [(x & o' & _ & E)|(n & E)]; rewrite E; simpl; [discriminate|].
  intros _. exists n. reflexivity.
Qed.

(** With two cars or more in the backlog the loop of [processIncomingCars]
    runs its body twice. *)
Lemma processIncomingCars_two draws s car next rest :
  carBuffer s = car :: next :: rest ->
  processIncomingCars draws s
  = refreshStatuses (fst (allocateOne (draws 1) (fst (allocateOne (draws 0) s)))).
Proof. intros Hb. unfold processIncomingCars. rewrite Hb. reflexivity. Qed.

(** C9 (amended).  When the allocation of a dequeued car fails, the car is
    back at the front of the backlog and the other backlog cars keep their
    order (the backlog is what it was before the iteration) and no lane has
    changed; the next iteration, if the loop has one, dequeues that same car
    again, and with two cars or more in the backlog the loop does run a
    second iteration in the same tick. *)
Theorem requeue_front (draws : nat -> OvenId) (s : Simulator)
        (car : Color) (rest : list Color) :
  carBuffer s = car :: rest ->
  snd (allocateOne (draws 0) s) = None ->
  carBuffer (fst (allocateOne (draws 0) s)) = car :: rest
  /\ lines (fst (allocateOne (draws 0) s)) = lines s
  /\ shiftCar (fst (allocateOne (draws 0) s))
     = Some (car, set_carBuffer rest (fst (allocateOne (draws 0) s)))
  /\ (rest <> [] ->
      processIncomingCars draws s
      = refreshStatuses (fst (allocateOne (draws 1) (fst (allocateOne (draws 0) s))))).
Proof.
  intros Hb Hfail.
  destruct (allocateOne_failed (draws 0) s Hb Hfail) as [n E]. rewrite E.
  split; [reflexivity|]. split; [reflexivity|]. split; [reflexivity|].
  intros Hne. rewrite <- E. destruct rest as [|next rest']; [congruence|].
  eapply processIncomingCars_two. exact Hb.
Qed.

Lemma requeue_front_witness :
  carBuffer saturated = C1 :: C2 :: skipn 2 (carBuffer saturated)
  /\ snd (allocateOne O1 saturated) = None
  /\ carBuffer (fst (allocateOne O1 saturated)) = C1 :: C2 :: skipn 2 (carBuffer saturated).
Proof.
  assert (Hb : carBuffer saturated = C1 :: C2 :: skipn 2 (carBuffer saturated))
    by (vm_compute; reflexivity).
  assert (Hfail : snd (allocateOne O1 saturated) = None) by (vm_compute; reflexivity).
  split; [exact Hb|]. split; [exact Hfail|].
  exact (proj1 (@requeue_front (fun _ => O1) saturated C1 _ Hb Hfail)).
Defined.

(** ** The scenarios of the design notes *)

(** L1 holds [C1, C1], L2 is empty: a C1 car goes to L1 (continuation). *)
Example continuation_scenario : findBestLine C1 O1 (withQueues [C1; C1] []) = Some L1.
Proof. reflexivity. Qed.

(** L1 holds [C3], L2 is empty: a C5 car goes to L2 (least filled). *)
Example least_filled_scenario : findBestLine C5 O1 (withQueues [C3] []) = Some L2.
Proof. reflexivity. Qed.

(** After [reset]: 120 cars in the backlog, lanes empty and active, ovens
    active, nothing processed. *)
Example reset_scenario :
  length (carBuffer (reset shuffledReset)) = 120
  /\ map (fun id => (status (lines (reset shuffledReset) id),
                     cars (lines (reset shuffledReset) id))) lineIds
     = repeat (Active, []) 9
  /\ map (fun o => ovenStatus (ovens (reset shuffledReset) o)) [O1; O2]
     = [OvenActive; OvenActive]
  /\ totalCarsProcessed (reset shuffledReset) = 0.
Proof. vm_compute. repeat split; reflexivity. Qed.

(** ** Further properties: the backlog built by reset *)

Lemma array_set_count (l : list Color) i x y c :
  nth_error l i = Some x ->
  count_occ Color_eq_dec (array_set l i y) c + (if Color_eq_dec x c then 1 else 0)
  = count_occ Color_eq_dec l c + (if Color_eq_dec y c then 1 else 0).
Proof.
  revert i. induction l as [|a l IH]; intros [|i] H; simpl in *; try discriminate.
  - inversion H; subst a.
    destruct (Color_eq_dec x c), (Color_eq_dec y c); lia.
  - specialize (IH i H). destruct (Color_eq_dec a c); lia.
Qed.

Lemma array_set_nth (l : list Color) i j x y :
  nth_error l i = Some x ->
  nth_error (array_set l i y) j = if Nat.eq_dec i j then Some y else nth_error l j.
Proof.
  revert i j. induction l as [|a l IH]; intros [|i] [|j] H; simpl in *;
    try discriminate; try reflexivity.
  rewrite (IH i j H). destruct (Nat.eq_dec i j), (Nat.eq_dec (S i) (S j));
    try reflexivity; lia.
Qed.

Lemma array_swap_count (l : list Color) i j c :
  count_occ Color_eq_dec (array_swap l i j) c = count_occ Color_eq_dec l c.
Proof.
  unfold array_swap. destruct (nth_error l i) as [x|] eqn:Ei; [|reflexivity].
  destruct (nth_error l j) as [y|] eqn:Ej; [|reflexivity].
  pose proof (@array_set_count l i x y c Ei) as H1.
  assert (Hj : nth_error (array_set l i y) j = Some y).
  { rewrite (@array_set_nth l i j x y Ei).
    destruct (Nat.eq_dec i j); [reflexivity|assumption]. }
  pose proof (@array_set_count (array_set l i y) j y x c Hj) as H2. lia.
Qed.

Lemma shuffleArray_count (rnd : nat -> nat) (array : list Color) c :
  count_occ Color_eq_dec (shuffleArray rnd array) c = count_occ Color_eq_dec array c.
Proof.
  unfold shuffleArray. generalize (length array - 1) as i. intros i. revert array.
  induction i as [|i IH]; intros array; simpl; [reflexivity|].
  rewrite IH. apply array_swap_count.
Qed.

(** X1.  [shuffleArray] only reorders: whatever the random draws, its result
    is a permutation of the array it is given. *)
Theorem shuffleArray_permutation (rnd : nat -> nat) (array : list Color) :
  Permutation (shuffleArray rnd array) array.
Proof.
  apply (Permutation_count_occ Color_eq_dec). intros c. apply shuffleArray_count.
Qed.

(** X2.  After [reset], whatever the random draws, the backlog holds of each
    colour exactly the number of cars the distribution table gives it (25 of
    C1, 20 of C2, ..., 2 of C12). *)
Theorem reset_color_counts (inp : ResetInput) (c : Color) :
  count_occ Color_eq_dec (carBuffer (reset inp)) c = distributionCount c.
Proof.
  unfold reset. cbn [carBuffer]. rewrite shuffleArray_count.
  destruct c; vm_compute; reflexivity.
Qed.

(** ** Further properties: what the events leave alone *)

Lemma allocateOne_cases o s car rest :
  carBuffer s = car :: rest ->
  (exists id o',
      findBestLine car o' s = Some id
      /\ allocateOne o s = (pushCar id car (set_carBuffer rest s), Some id))
  \/ (exists n,
         allocateOne o s
         = (set_activeAlerts n (set_carBuffer (car :: rest) (set_carBuffer rest s)),
            None)).
Proof.
  intros Hb. unfold allocateOne, shiftCar. rewrite Hb.
  destruct (placeCar_cases car o (set_carBuffer rest s))
    as [(x & o' & Hf & E)|(n & E)]; rewrite E.
  - left. exists x, o'. split; [exact Hf|reflexivity].
  - right. exists n. reflexivity.
Qed.

Lemma allocateOne_empty o s : carBuffer s = [] -> allocateOne o s = (s, None).
Proof. intros Hb. unfold allocateOne, shiftCar. rewrite Hb. reflexivity. Qed.

Lemma sameControl_refl s : sameControl s s.
Proof. unfold sameControl. tauto. Qed.

Lemma sameControl_trans s1 s2 s3 :
  sameControl s1 s2 -> sameControl s2 s3 -> sameControl s1 s3.
Proof.
  unfold sameControl. intros (A1 & B1 & C1' & D1) (A2 & B2 & C2' & D2).
  repeat split; congruence.
Qed.

Lemma allocateOne_control o s : sameControl s (fst (allocateOne o s)).
Proof.
  destruct (carBuffer s) as [|car rest] eqn:Hb.
  - rewrite allocateOne_empty by assumption. apply sameControl_refl.
  - destruct (@allocateOne_cases o s car rest Hb) as [(x & o' & _ & E)|(n & E)];
      rewrite E; unfold sameControl; simpl; tauto.
Qed.

Lemma processIncomingCars_control draws s :
  sameControl s (processIncomingCars draws s).
Proof.
  unfold processIncomingCars. destruct (carBuffer s) as [|c b];
    [apply sameControl_refl|].
  apply sameControl_trans
    with (s2 := for_loop (Nat.min 2 (length (c :: b))) 0
                  (fun i st => fst (allocateOne (draws i) st)) s).
  - apply (for_loop_invariant (fun st => sameControl s st)).
    + intros i st H. eapply sameControl_trans; [exact H|apply allocateOne_control].
    + apply sameControl_refl.
  - unfold sameControl. repeat split; reflexivity.
Qed.

Lemma processMainLine_control s : sameControl s (processMainLine s).
Proof.
  pose proof (processMainLine_cases s) as H.
  destruct (currentCar (mainLine s)) as [car|].
  - rewrite H. unfold sameControl. simpl. tauto.
  - destruct H as [H|(id & car & rest & line' & _ & _ & _ & _ & _ & _ & _ & H)];
      rewrite H; [apply sameControl_refl|].
    unfold sameControl. simpl. tauto.
Qed.

Lemma tickRoll_control inp s : sameControl s (fst (tickRoll inp s)).
Proof.
  destruct (tickRoll_cases inp s) as [E|(x & _ & _ & _ & E)]; rewrite E;
    unfold sameControl; simpl; tauto.
Qed.

Lemma afterAllocation_control inp s2 : sameControl s2 (afterAllocation inp s2).
Proof.
  apply sameControl_trans with (s2 := processMainLine s2);
    [apply processMainLine_control|].
  unfold afterAllocation. generalize (processMainLine s2) as s3. intros s3.
  unfold sameControl. simpl. destruct (_ <=? _)%Z; simpl; tauto.
Qed.

Lemma tick_control inp s : sameControl s (fst (tick inp s)).
Proof.
  rewrite tick_unfold. destruct (negb (isRunning s) || isPaused s);
    [apply sameControl_refl|].
  cbn [fst]. unfold tickTail.
  eapply sameControl_trans; [apply tickRoll_control|].
  eapply sameControl_trans; [apply processIncomingCars_control|].
  apply afterAllocation_control.
Qed.

Lemma recoveryTimer_control x s : sameControl s (recoveryTimer x s).
Proof.
  unfold recoveryTimer.
  destruct (LineStatus_eqb (status (lines s x)) Unavailable);
    unfold sameControl; simpl; tauto.
Qed.

(** A tick changes neither the capacity nor the oven of a lane. *)
Lemma tick_lane_config inp s id :
  capacity (lines (fst (tick inp s)) id) = capacity (lines s id)
  /\ oven (lines (fst (tick inp s)) id) = oven (lines s id).
Proof.
  destruct (tick_lanes inp s id) as [[_ Hk]|(_ & _ & _ & _ & Hk)];
    destruct Hk as (Hc & Ho & _); simpl in *; auto.
Qed.

Lemma reset_config inp : configOK (reset inp).
Proof.
  unfold configOK. simpl. repeat split.
  - intros []; reflexivity.
  - intros []; reflexivity.
  - intros []; reflexivity.
Qed.

Lemma step_config s e : configOK s -> configOK (step s e).
Proof.
  intros (Ho & Hc & Hv & Hl). destruct e as [inp| | |inp|x]; cbn [step].
  - apply reset_config.
  - unfold configOK. simpl. auto.
  - unfold configOK. simpl. auto.
  - destruct (tick_control inp s) as (_ & _ & Eo & El).
    unfold configOK. rewrite Eo, El. repeat split; try assumption.
    + intros id. rewrite (proj1 (tick_lane_config inp s id)). apply Hc.
    + intros id. rewrite (proj2 (tick_lane_config inp s id)). apply Hv.
  - destruct (recoveryTimer_control x s) as (_ & _ & Eo & El).
    unfold configOK. rewrite Eo, El. repeat split; try assumption.
    + intros id. destruct (recoveryTimer_keeps x s id) as (E & _). rewrite E. apply Hc.
    + intros id. destruct (recoveryTimer_keeps x s id) as (_ & E & _). rewrite E. apply Hv.
Qed.

Lemma reachable_config s : reachable s -> configOK s.
Proof.
  induction 1 as [inp|s e Hr IH]; [apply reset_config|apply step_config, IH].
Qed.

(** X3.  No event stops an oven or rebinds a lane: in every reachable state
    both ovens are active, every lane has the capacity and the oven the
    literal of [reset] gives it (14 and O1 for L1-L4, 16 and O2 for L5-L9),
    [lastFedLine] is still null, and the lanes bound to each oven are the ones
    the dashboard lists under it. *)
Theorem configuration_fixed (s : Simulator) :
  reachable s ->
  (forall o, ovenStatus (ovens s o) = OvenActive)
  /\ (forall id, capacity (lines s id) = initialCapacity id)
  /\ lastFedLine s = None
  /\ (forall id, oven (lines s id) = O1 <-> In id oven1Lines)
  /\ (forall id, oven (lines s id) = O2 <-> In id oven2Lines).
Proof.
  intros Hr. destruct (reachable_config Hr) as (Ho & Hc & Hv & Hl).
  repeat split; try assumption; try apply Ho; try apply Hc;
    rewrite Hv in *; destruct id; simpl in *; intuition discriminate.
Qed.

Lemma configuration_fixed_witness :
  reachable (step (step (reset sampleReset) EvStart) (EvTick sampleTick))
  /\ capacity (lines (step (step (reset sampleReset) EvStart) (EvTick sampleTick)) L5)
     = initialCapacity L5.
Proof.
  assert (H : reachable (step (step (reset sampleReset) EvStart) (EvTick sampleTick)))
    by (apply reach_step, reach_step, reach_init).
  split; [exact H|].
  exact (proj1 (proj2 (configuration_fixed H)) L5).
Defined.

(** ** Further properties: the conveyor over ticks *)

Lemma pushRecent_length car seq :
  length seq <= 15 -> length (pushRecent car seq) <= 15.
Proof.
  intros H. rewrite pushRecent_spec. destruct (length seq <? 15) eqn:E.
  - apply Nat.ltb_lt in E. rewrite length_app. simpl. lia.
  - apply Nat.ltb_ge in E. destruct seq as [|a seq]; simpl in *; [lia|].
    rewrite length_app. simpl. lia.
Qed.

Lemma afterAllocation_conveyor inp s2 :
  mainLine (afterAllocation inp s2) = mainLine (processMainLine s2)
  /\ totalCarsProcessed (afterAllocation inp s2) = totalCarsProcessed (processMainLine s2)
  /\ recentSequence (afterAllocation inp s2) = recentSequence (processMainLine s2)
  /\ (processedThisHour (afterAllocation inp s2) = processedThisHour (processMainLine s2)
      \/ processedThisHour (afterAllocation inp s2) = 0).
Proof.
  unfold afterAllocation. generalize (processMainLine s2) as s3. intros s3. simpl.
  destruct (_ <=? _)%Z; simpl; auto.
Qed.

(** What a tick does to the conveyor: nothing when it does not execute;
    otherwise it retires the occupant of the slot, or, the slot being empty,
    retires nothing and possibly loads a car. *)
Lemma tick_conveyor inp s :
  fst (tick inp s) = s
  \/ match currentCar (mainLine s) with
     | Some car =>
         mainLine (fst (tick inp s)) = mkMainLine None None
         /\ totalCarsProcessed (fst (tick inp s)) = S (totalCarsProcessed s)
         /\ recentSequence (fst (tick inp s)) = pushRecent car (recentSequence s)
         /\ (processedThisHour (fst (tick inp s)) = S (processedThisHour s)
             \/ processedThisHour (fst (tick inp s)) = 0)
     | None =>
         totalCarsProcessed (fst (tick inp s)) = totalCarsProcessed s
         /\ recentSequence (fst (tick inp s)) = recentSequence s
         /\ (processedThisHour (fst (tick inp s)) = processedThisHour s
             \/ processedThisHour (fst (tick inp s)) = 0)
         /\ (mainLine (fst (tick inp s)) = mainLine s
             \/ exists id car,
                  mainLine (fst (tick inp s)) = mkMainLine (Some id) (Some car))
     end.
Proof.
  rewrite tick_unfold. destruct (negb (isRunning s) || isPaused s); [left; reflexivity|].
  right. cbn [fst]. unfold tickTail.
  set (s2 := processIncomingCars (ovenDraws inp) (fst (tickRoll inp s))).
  assert (Hc : sameConveyor s s2).
  { eapply sameConveyor_trans;
      [apply tickRoll_conveyor|apply processIncomingCars_conveyor]. }
  destruct Hc as (Hm & Ht & Hh & Hq).
  destruct (afterAllocation_conveyor inp s2) as (Fm & Ft & Fq & Fh).
  rewrite Fm, Ft, Fq.
  pose proof (processMainLine_cases s2) as H. rewrite Hm in H.
  destruct (currentCar (mainLine s)) as [car|].
  - rewrite H in *. simpl in *. rewrite Ht, Hq, Hh in *. auto.
  - destruct H as [H|(id & car & rest & line' & _ & _ & _ & _ & _ & _ & _ & H)];
      rewrite H in *.
    + rewrite Ht, Hq, Hh, Hm in *. auto.
    + unfold loaded in *. simpl in *. rewrite Ht, Hq, Hh in *.
      repeat split; auto. right. eauto.
Qed.

Lemma recoveryTimer_conveyor x s : sameConveyor s (recoveryTimer x s).
Proof.
  unfold recoveryTimer.
  destruct (LineStatus_eqb (status (lines s x)) Unavailable);
    unfold sameConveyor; simpl; tauto.
Qed.

Lemma reset_conveyorOK inp : conveyorOK (reset inp).
Proof. unfold conveyorOK. simpl. split; [lia|]. split; [tauto|lia]. Qed.

Lemma step_conveyorOK s e : conveyorOK s -> conveyorOK (step s e).
Proof.
  intros (Hq & Hm & Hh). destruct e as [inp| | |inp|x]; cbn [step].
  - apply reset_conveyorOK.
  - unfold conveyorOK. simpl. auto.
  - unfold conveyorOK. simpl. auto.
  - destruct (tick_conveyor inp s) as [E|H].
    + rewrite E. unfold conveyorOK. auto.
    + unfold conveyorOK. destruct (currentCar (mainLine s)) as [car|] eqn:Ec.
      * destruct H as (Em & Et & Eq & Eh). rewrite Em, Et, Eq. simpl.
        split; [apply pushRecent_length, Hq|]. split; [tauto|].
        destruct Eh as [Eh|Eh]; rewrite Eh; lia.
      * destruct H as (Et & Eq & Eh & Em). rewrite Et, Eq.
        split; [assumption|]. split.
        -- destruct Em as [Em|(id & car & Em)]; rewrite Em; simpl.
           ++ rewrite Ec. exact Hm.
           ++ split; discriminate.
        -- destruct Eh as [Eh|Eh]; rewrite Eh; lia.
  - destruct (recoveryTimer_conveyor x s) as (Em & Et & Eh & Eq).
    unfold conveyorOK. rewrite Em, Et, Eh, Eq. auto.
Qed.

Lemma reachable_conveyorOK s : reachable s -> conveyorOK s.
Proof.
  induction 1 as [inp|s e Hr IH]; [apply reset_conveyorOK|apply step_conveyorOK, IH].
Qed.

Lemma reachable_carCount s : reachable s -> carCount s = 120.
Proof.
  induction 1 as [inp|s e Hr IH]; [apply reset_count|].
  destruct (isReset e) eqn:He.
  - destruct e; try discriminate. apply reset_count.
  - rewrite step_count by assumption. assumption.
Qed.

(** X4.  [recent_sequence] never exceeds 15 entries, and a retirement keeps
    it in retirement order: the new sequence is the old one followed by the
    retired colour, minus its oldest entry exactly when 15 entries were
    already there. *)
Theorem recent_sequence_bound (s : Simulator) :
  reachable s ->
  length (recentSequence s) <= 15
  /\ forall car,
       currentCar (mainLine s) = Some car ->
       exists dropped,
         recentSequence s ++ [car] = dropped ++ recentSequence (processMainLine s)
         /\ (length (recentSequence s) < 15 -> dropped = [])
         /\ (length (recentSequence s) = 15 -> length dropped = 1).
Proof.
  intros Hr. destruct (reachable_conveyorOK Hr) as (Hq & _ & _).
  split; [assumption|]. intros car Ec.
  pose proof (processMainLine_cases s) as H. rewrite Ec in H. rewrite H. simpl.
  rewrite pushRecent_spec. destruct (length (recentSequence s) <? 15) eqn:E.
  - exists []. split; [reflexivity|]. split; [reflexivity|].
    apply Nat.ltb_lt in E. lia.
  - apply Nat.ltb_ge in E.
    destruct (recentSequence s) as [|a seq]; simpl in *; [lia|].
    exists [a]. split; [reflexivity|]. split; [lia|reflexivity].
Qed.

Lemma recent_sequence_bound_witness :
  reachable (step (step (reset sampleReset) EvStart) (EvTick sampleTick))
  /\ length (recentSequence (step (step (reset sampleReset) EvStart) (EvTick sampleTick)))
     <= 15.
Proof.
  assert (H : reachable (step (step (reset sampleReset) EvStart) (EvTick sampleTick)))
    by (apply reach_step, reach_step, reach_init).
  split; [exact H|].
  exact (proj1 (recent_sequence_bound H)).
Defined.

(** X5.  The conveyor slot and its source go together: in every reachable
    state [currentCar] is null exactly when [feedingFrom] is null, so the
    snapshot never shows a car without the lane it came from, nor a lane
    without a car. *)
Theorem conveyor_pairing (s : Simulator) :
  reachable s ->
  forall now,
    current_car (getStatus now s) = None <-> feeding_from (getStatus now s) = None.
Proof.
  intros Hr now. destruct (reachable_conveyorOK Hr) as (_ & Hm & _). exact Hm.
Qed.

Lemma conveyor_pairing_witness :
  reachable (step (step (reset sampleReset) EvStart) (EvTick sampleTick))
  /\ (current_car
        (getStatus 1000600 (step (step (reset sampleReset) EvStart) (EvTick sampleTick)))
      = None
      <-> feeding_from
            (getStatus 1000600 (step (step (reset sampleReset) EvStart) (EvTick sampleTick)))
          = None).
Proof.
  assert (H : reachable (step (step (reset sampleReset) EvStart) (EvTick sampleTick)))
    by (apply reach_step, reach_step, reach_init).
  split; [exact H|].
  exact (conveyor_pairing H 1000600).
Defined.

(** X6.  The counters stay consistent: in every reachable state the cars
    counted in the current hour are at most the cars processed in total, and
    these are at most the 120 cars generated. *)
Theorem counters_bounded (s : Simulator) :
  reachable s ->
  processedThisHour s <= totalCarsProcessed s /\ totalCarsProcessed s <= 120.
Proof.
  intros Hr. destruct (reachable_conveyorOK Hr) as (_ & _ & Hh).
  split; [assumption|].
  pose proof (reachable_carCount Hr) as Hc. unfold carCount in Hc. lia.
Qed.

Lemma counters_bounded_witness :
  reachable (step (step (reset sampleReset) EvStart) (EvTick sampleTick))
  /\ totalCarsProcessed (step (step (reset sampleReset) EvStart) (EvTick sampleTick))
     <= 120.
Proof.
  assert (H : reachable (step (step (reset sampleReset) EvStart) (EvTick sampleTick)))
    by (apply reach_step, reach_step, reach_init).
  split; [exact H|].
  exact (proj2 (counters_bounded H)).
Defined.

Lemma timers_conveyor ts s : sameConveyor s (run s (map EvTimer ts)).
Proof.
  revert s. induction ts as [|x ts IH]; intros s; simpl; [apply sameConveyor_refl|].
  eapply sameConveyor_trans; [apply recoveryTimer_conveyor|apply IH].
Qed.

Lemma tick_total_le inp s :
  totalCarsProcessed s <= totalCarsProcessed (fst (tick inp s))
  /\ totalCarsProcessed (fst (tick inp s)) <= S (totalCarsProcessed s)
  /\ (currentCar (mainLine s) = None ->
      totalCarsProcessed (fst (tick inp s)) = totalCarsProcessed s).
Proof.
  destruct (tick_conveyor inp s) as [E|H]; [rewrite E; lia|].
  destruct (currentCar (mainLine s)) as [car|].
  - destruct H as (_ & Et & _). rewrite Et. repeat split; try lia. discriminate.
  - destruct H as (Et & _). rewrite Et. repeat split; lia.
Qed.

(** X7.  Throughput bound: the counter of processed cars never decreases in
    a tick, and two consecutive ticks (recovery timers may fire in between)
    retire at most one car together, because a tick that retires leaves the
    slot empty and a tick that starts on an empty slot retires nothing. *)
Theorem one_car_per_two_ticks (s : Simulator) (inp1 inp2 : TickInput)
        (timers : list LineId) :
  totalCarsProcessed s <= totalCarsProcessed (fst (tick inp1 s))
  /\ totalCarsProcessed
       (fst (tick inp2 (run (fst (tick inp1 s)) (map EvTimer timers))))
     <= S (totalCarsProcessed s).
Proof.
  split; [apply tick_total_le|].
  set (s1 := fst (tick inp1 s)).
  destruct (timers_conveyor timers s1) as (Hm & Ht & _).
  set (s1' := run s1 (map EvTimer timers)) in *.
  destruct (tick_total_le inp2 s1') as (_ & Hle & Hnone). rewrite Ht in *.
  destruct (tick_conveyor inp1 s) as [E|H].
  - fold s1 in E. rewrite E in *. lia.
  - fold s1 in H. destruct (currentCar (mainLine s)) as [car|].
    + destruct H as (Em & Et & _). rewrite Hm, Em in Hnone.
      specialize (Hnone eq_refl). lia.
    + destruct H as (Et & _). lia.
Qed.

(** ** Further properties: lanes *)

Lemma allocateOne_lanes o s id :
  lines (fst (allocateOne o s)) id = lines s id
  \/ (status (lines s id) <> Unavailable
      /\ length (cars (lines s id)) < capacity (lines s id)
      /\ exists car,
           lines (fst (allocateOne o s)) id
           = set_cars (cars (lines s id) ++ [car]) (lines s id)).
Proof.
  destruct (carBuffer s) as [|car rest] eqn:Hb.
  - rewrite allocateOne_empty by assumption. left. reflexivity.
  - destruct (@allocateOne_cases o s car rest Hb) as [(x & o' & Hf & E)|(n & E)];
      rewrite E; cbn [fst]; [|left; reflexivity].
    apply findBestLine_spare in Hf. destruct Hf as [[_ Hs] Hroom].
    rewrite pushCar_lines. cbn [lines set_carBuffer].
    destruct (LineId_eq_dec x id) as [->|Hne]; [|left; reflexivity].
    right. split; [assumption|]. split; [assumption|]. exists car. reflexivity.
Qed.

Lemma processMainLine_load s id car rest :
  currentCar (mainLine s) = None ->
  selectNextLine s = Some id ->
  cars (lines s id) = car :: rest ->
  processMainLine s = loaded id car (demote (set_cars rest (lines s id))) s.
Proof.
  intros Ec Hsel Hc. unfold processMainLine. rewrite Ec, Hsel, Hc. reflexivity.
Qed.

Lemma selectNextLine_candidate s id : selectNextLine s = Some id -> candidateLane s id.
Proof.
  intros Hsel. destruct (dispatchable s) as [|a l] eqn:Ed.
  - unfold selectNextLine in Hsel. fold (dispatchable s) in Hsel. rewrite Ed in Hsel.
    discriminate.
  - assert (Hne : dispatchable s <> []) by congruence.
    destruct (@selectNextLine_core s Hne) as (p1 & x & p2 & Hx & Ep & _).
    rewrite Hx in Hsel. inversion Hsel; subst x.
    apply dispatchable_In. rewrite Ep. apply in_or_app. right. left. reflexivity.
Qed.

Lemma selectNextLine_none s : selectNextLine s = None <-> dispatchable s = [].
Proof.
  split.
  - intros Hsel. destruct (dispatchable s) as [|a l] eqn:Ed; [reflexivity|].
    assert (Hne : dispatchable s <> []) by congruence.
    destruct (@selectNextLine_core s Hne) as (p1 & x & p2 & Hx & _). congruence.
  - intros Ed. unfold selectNextLine. fold (dispatchable s). rewrite Ed. reflexivity.
Qed.

Lemma processMainLine_lanes s id :
  lines (processMainLine s) id = lines s id
  \/ (status (lines s id) <> Unavailable
      /\ exists car rest,
           cars (lines s id) = car :: rest
           /\ lines (processMainLine s) id = demote (set_cars rest (lines s id))).
Proof.
  unfold processMainLine. destruct (currentCar (mainLine s)) as [c|]; [left; reflexivity|].
  destruct (selectNextLine s) as [x|] eqn:Hsel; [|left; reflexivity].
  destruct (cars (lines s x)) as [|car rest] eqn:Hc; [left; reflexivity|].
  cbn [lines set_lines]. unfold upd_line.
  destruct (LineId_eq_dec x id) as [->|Hne]; [|left; reflexivity].
  right. apply selectNextLine_candidate in Hsel. split; [apply Hsel|].
  exists car, rest. split; [assumption|reflexivity].
Qed.

Lemma tickRoll_lanes inp s id :
  lines (fst (tickRoll inp s)) id = lines s id
  \/ (status (lines s id) = Active
      /\ snd (tickRoll inp s) = Some id
      /\ lines (fst (tickRoll inp s)) id
         = set_lastBreakdown (breakdownNow inp) (set_status Unavailable (lines s id))).
Proof.
  destruct (tickRoll_cases inp s) as [E|(x & Hx & _ & _ & E)]; rewrite E; cbn [fst snd];
    [left; reflexivity|].
  destruct (LineId_eq_dec x id) as [->|Hne].
  - right. apply activeLanes_In in Hx. rewrite marked_same. auto.
  - left. apply marked_other, Hne.
Qed.

(** The lanes during the loop of [processIncomingCars]: within capacity, and
    a lane marked ['full'] is at capacity. *)
Lemma allocateOne_full_at_capacity o s :
  (forall id, length (cars (lines s id)) <= capacity (lines s id)
              /\ (status (lines s id) = Full ->
                  length (cars (lines s id)) = capacity (lines s id))) ->
  forall id,
    length (cars (lines (fst (allocateOne o s)) id))
    <= capacity (lines (fst (allocateOne o s)) id)
    /\ (status (lines (fst (allocateOne o s)) id) = Full ->
        length (cars (lines (fst (allocateOne o s)) id))
        = capacity (lines (fst (allocateOne o s)) id)).
Proof.
  intros H id. destruct (H id) as [Hle Hfull].
  destruct (allocateOne_lanes o s id) as [E|(_ & Hroom & car & E)]; rewrite E;
    [auto|].
  simpl. rewrite length_app. simpl. split; [lia|].
  intros Hf. specialize (Hfull Hf). lia.
Qed.

Lemma refreshStatus_tight l :
  length (cars l) <= capacity l ->
  (status l = Full -> length (cars l) = capacity l) ->
  laneTight (refreshStatus l).
Proof.
  intros Hle Hfull. unfold refreshStatus, laneTight.
  destruct (capacity l <=? length (cars l)) eqn:E.
  - apply Nat.leb_le in E. simpl. split; [assumption|]. split; [lia|reflexivity].
  - apply Nat.leb_gt in E.
    destruct (LineStatus_eqb (status l) Full) eqn:Ef; simpl.
    + split; [assumption|]. split; [discriminate|lia].
    + apply LineStatus_eqb_neq in Ef. split; [assumption|]. split; [congruence|lia].
Qed.

Lemma processIncomingCars_tight draws s :
  (forall id, laneTight (lines s id)) ->
  forall id, laneTight (lines (processIncomingCars draws s) id).
Proof.
  intros H id. unfold processIncomingCars.
  destruct (carBuffer s) as [|c b]; [apply H|].
  rewrite refreshStatuses_lines.
  set (s' := for_loop _ _ _ s).
  assert (Hs' : forall id,
             length (cars (lines s' id)) <= capacity (lines s' id)
             /\ (status (lines s' id) = Full ->
                 length (cars (lines s' id)) = capacity (lines s' id))).
  { unfold s'.
    apply (for_loop_invariant
             (fun st => forall id,
                  length (cars (lines st id)) <= capacity (lines st id)
                  /\ (status (lines st id) = Full ->
                      length (cars (lines st id)) = capacity (lines st id)))).
    - intros i st Hst. apply allocateOne_full_at_capacity, Hst.
    - intros x. destruct (H x) as [Hle Hiff]. split; [assumption|apply Hiff]. }
  destruct (Hs' id). apply refreshStatus_tight; assumption.
Qed.

Lemma demote_tight l car rest :
  laneTight l -> cars l = car :: rest -> laneTight (demote (set_cars rest l)).
Proof.
  unfold laneTight, demote. intros [Hle Hiff] Hc. rewrite Hc in *. simpl in *.
  destruct (LineStatus_eqb (status l) Full) eqn:Ef; simpl.
  - apply LineStatus_eqb_eq in Ef. apply Hiff in Ef.
    replace (length rest <? capacity l) with true
      by (symmetry; apply Nat.ltb_lt; lia).
    simpl. split; [lia|]. split; [discriminate|lia].
  - apply LineStatus_eqb_neq in Ef. split; [lia|]. split; [congruence|].
    intros E. exfalso. lia.
Qed.

Lemma processMainLine_tight s :
  (forall id, laneTight (lines s id)) ->
  forall id, laneTight (lines (processMainLine s) id).
Proof.
  intros H id.
  destruct (processMainLine_lanes s id) as [E|(_ & car & rest & Hc & E)]; rewrite E;
    [apply H|].
  eapply demote_tight; [apply H|exact Hc].
Qed.

Lemma tick_tight inp s :
  (forall id, laneTight (lines s id)) ->
  forall id, laneTight (lines (fst (tick inp s)) id).
Proof.
  intros H. rewrite tick_unfold.
  destruct (negb (isRunning s) || isPaused s); [exact H|].
  cbn [fst]. intros id. rewrite tickTail_lines.
  apply processMainLine_tight, processIncomingCars_tight.
  intros x. destruct (tickRoll_lanes inp s x) as [E|(Ha & _ & E)]; rewrite E;
    [apply H|].
  destruct (H x) as [Hle Hiff]. unfold laneTight. simpl.
  split; [assumption|]. split; [discriminate|].
  intros Hc. apply Hiff in Hc. congruence.
Qed.

Lemma reachable_tight s : reachable s -> forall id, laneTight (lines s id).
Proof.
  induction 1 as [inp|s e Hr IH].
  - intros []; unfold laneTight; simpl; split; try lia; split; discriminate.
  - destruct e as [inp| | |inp|x]; cbn [step].
    + intros []; unfold laneTight; simpl; split; try lia; split; discriminate.
    + exact IH.
    + exact IH.
    + apply tick_tight, IH.
    + intros id. unfold recoveryTimer.
      destruct (LineStatus_eqb (status (lines s x)) Unavailable) eqn:E; [|apply IH].
      apply LineStatus_eqb_eq in E. cbn [lines set_lines]. unfold upd_line.
      destruct (LineId_eq_dec x id) as [->|Hne]; [|apply IH].
      destruct (IH id) as [Hle Hiff]. unfold laneTight. simpl.
      split; [assumption|]. split; [discriminate|].
      intros Hc. apply Hiff in Hc. congruence.
Qed.

(** X8.  The status of a lane tells its occupancy: in every reachable state a
    lane has status ['full'] exactly when its queue length equals its
    capacity, so the snapshot shows ['full'] if and only if [count] equals
    [capacity]. *)
Theorem full_iff_at_capacity (s : Simulator) :
  reachable s ->
  forall now id,
    lv_status (st_lines (getStatus now s) id) = Full
    <-> lv_count (st_lines (getStatus now s) id)
        = lv_capacity (st_lines (getStatus now s) id).
Proof.
  intros Hr now id. destruct (reachable_tight Hr id) as [_ Hiff]. exact Hiff.
Qed.

Lemma full_iff_at_capacity_witness :
  reachable saturated
  /\ (lv_status (st_lines (getStatus 1020000 saturated) L1) = Full
      <-> lv_count (st_lines (getStatus 1020000 saturated) L1)
          = lv_capacity (st_lines (getStatus 1020000 saturated) L1)).
Proof.
  assert (H : reachable saturated) by (apply reachable_run, reach_init).
  split; [exact H|].
  exact (full_iff_at_capacity H 1020000 L1).
Defined.

Lemma refreshStatus_idle l :
  length (cars l) < capacity l -> status l <> Full -> refreshStatus l = l.
Proof.
  intros Hlt Hf. unfold refreshStatus.
  replace (capacity l <=? length (cars l)) with false
    by (symmetry; apply Nat.leb_gt; assumption).
  replace (LineStatus_eqb (status l) Full) with false
    by (symmetry; apply LineStatus_eqb_neq; assumption).
  reflexivity.
Qed.

(** X9.  A broken-down lane is frozen: in a reachable state, a tick leaves a
    lane of status ['unavailable'] exactly as it is (no car pushed, no car
    released, status, capacity and breakdown timestamp unchanged); only its
    recovery timer changes it. *)
Theorem unavailable_lane_frozen (s : Simulator) (id : LineId) (inp : TickInput) :
  reachable s ->
  status (lines s id) = Unavailable ->
  lines (fst (tick inp s)) id = lines s id.
Proof.
  intros Hr Hu. destruct (reachable_tight Hr id) as [Hle Hiff].
  rewrite tick_unfold. destruct (negb (isRunning s) || isPaused s); [reflexivity|].
  cbn [fst]. rewrite tickTail_lines.
  set (s1 := fst (tickRoll inp s)).
  assert (E1 : lines s1 id = lines s id).
  { destruct (tickRoll_lanes inp s id) as [E|(Ha & _)]; [exact E|congruence]. }
  assert (E2 : lines (processIncomingCars (ovenDraws inp) s1) id = lines s id).
  { unfold processIncomingCars. destruct (carBuffer s1) as [|c b]; [exact E1|].
    rewrite refreshStatuses_lines.
    assert (El : lines (for_loop (Nat.min 2 (length (c :: b))) 0
                          (fun i st => fst (allocateOne (ovenDraws inp i) st)) s1) id
                 = lines s id).
    { apply (for_loop_invariant (fun st => lines st id = lines s id)); [|exact E1].
      intros i st Hst.
      destruct (allocateOne_lanes (ovenDraws inp i) st id) as [E|(Hn & _)];
        [congruence|]. rewrite Hst in Hn. contradiction. }
    rewrite El. apply refreshStatus_idle.
    - assert (length (cars (lines s id)) <> capacity (lines s id)).
      { intros Hc. apply Hiff in Hc. congruence. }
      lia.
    - congruence. }
  destruct (processMainLine_lanes (processIncomingCars (ovenDraws inp) s1) id)
    as [E|(Hn & _)]; [congruence|].
  rewrite E2 in Hn. contradiction.
Qed.

Lemma unavailable_lane_frozen_witness :
  reachable saturated
  /\ status (lines saturated L5) = Unavailable
  /\ lines (fst (tick quietTick saturated)) L5 = lines saturated L5.
Proof.
  assert (H : reachable saturated) by (apply reachable_run, reach_init).
  assert (Hu : status (lines saturated L5) = Unavailable) by (vm_compute; reflexivity).
  split; [exact H|]. split; [exact Hu|].
  exact (@unavailable_lane_frozen saturated L5 quietTick H Hu).
Defined.

(** ** Further properties: breakdown and recovery *)

(** X10.  Breakdown and recovery round trip: when a breakdown roll marks a
    lane and its recovery timer then fires, the lane is back to what it was
    (status ['active'], same queue, capacity and oven) except for
    [lastBreakdown], which holds the time of the breakdown, and no other lane
    has changed; a recovery timer firing on a lane that is not ['unavailable']
    changes nothing, so firing twice is the same as firing once. *)
Theorem breakdown_recovery_round_trip (r : nat) (now : Z) (s : Simulator) (id : LineId) :
  snd (simulateBreakdown r now s) = Some id ->
  lines (recoveryTimer id (fst (simulateBreakdown r now s))) id
  = set_lastBreakdown now (lines s id)
  /\ (forall id', id' <> id ->
        lines (recoveryTimer id (fst (simulateBreakdown r now s))) id' = lines s id')
  /\ (forall s', status (lines s' id) <> Unavailable -> recoveryTimer id s' = s')
  /\ recoveryTimer id (recoveryTimer id (fst (simulateBreakdown r now s)))
     = recoveryTimer id (fst (simulateBreakdown r now s)).
Proof.
  assert (Hidle : forall s', status (lines s' id) <> Unavailable ->
                             recoveryTimer id s' = s').
  { intros s' Hn. unfold recoveryTimer.
    replace (LineStatus_eqb (status (lines s' id)) Unavailable) with false
      by (symmetry; apply LineStatus_eqb_neq; assumption).
    reflexivity. }
  destruct (simulateBreakdown_cases r now s) as [E|(x & Hx & _ & _ & E)];
    rewrite E; cbn [fst snd]; [discriminate|].
  intros Ex. inversion Ex; subst x. apply activeLanes_In in Hx.
  assert (Hl : lines (recoveryTimer id (marked id now s)) id
               = set_lastBreakdown now (lines s id)).
  { unfold recoveryTimer. rewrite marked_same. simpl. rewrite upd_line_same.
    unfold set_lastBreakdown, set_status. simpl. rewrite Hx. reflexivity. }
  split; [exact Hl|]. split; [|split; [exact Hidle|]].
  - intros id' Hne. unfold recoveryTimer. rewrite marked_same. simpl.
    rewrite upd_line_other by congruence.
    rewrite upd_line_other by congruence. reflexivity.
  - apply Hidle. rewrite Hl. simpl. rewrite Hx. discriminate.
Qed.

Lemma breakdown_recovery_round_trip_witness :
  snd (simulateBreakdown 0 1000500 (reset sampleReset)) = Some L1
  /\ lines (recoveryTimer L1 (fst (simulateBreakdown 0 1000500 (reset sampleReset)))) L1
     = set_lastBreakdown 1000500 (lines (reset sampleReset) L1).
Proof.
  assert (H : snd (simulateBreakdown 0 1000500 (reset sampleReset)) = Some L1)
    by (vm_compute; reflexivity).
  split; [exact H|].
  exact (proj1 (@breakdown_recovery_round_trip 0 1000500%Z (reset sampleReset) L1 H)).
Defined.

Lemma filter_flip_length (f g : LineId -> bool) (x : LineId) (l : list LineId) :
  NoDup l -> In x l -> f x = true -> g x = false ->
  (forall y, y <> x -> g y = f y) ->
  S (length (filter g l)) = length (filter f l).
Proof.
  intros Hnd Hin Hf Hg Hother. induction l as [|a l IH]; [destruct Hin|].
  inversion Hnd as [|? ? Ha Hl]; subst. simpl.
  destruct (LineId_eq_dec a x) as [->|Hne].
  - rewrite Hf, Hg. simpl. f_equal. f_equal. apply filter_ext_in.
    intros y Hy. apply Hother. intros ->. contradiction.
  - destruct Hin as [Hin|Hin]; [congruence|].
    rewrite (Hother a Hne). destruct (f a); simpl; rewrite <- (IH Hl Hin); reflexivity.
Qed.

Lemma lineIds_NoDup : NoDup lineIds.
Proof.
  unfold lineIds. repeat constructor; simpl; intuition discriminate.
Qed.

(** X11.  The breakdown injector never takes the plant below two active
    lanes: a breakdown happens only with more than two lanes of status
    ['active'], it takes exactly one of them away, and so at least two remain;
    when no breakdown happens the state is unchanged. *)
Theorem breakdown_leaves_two_active (r : nat) (now : Z) (s : Simulator) :
  match snd (simulateBreakdown r now s) with
  | Some id =>
      S (length (activeLanes (fst (simulateBreakdown r now s))))
      = length (activeLanes s)
      /\ 2 <= length (activeLanes (fst (simulateBreakdown r now s)))
      /\ status (lines (fst (simulateBreakdown r now s)) id) = Unavailable
  | None => fst (simulateBreakdown r now s) = s
  end.
Proof.
  destruct (simulateBreakdown_cases r now s) as [E|(x & Hx & Hn & _ & E)];
    rewrite E; cbn [fst snd]; [reflexivity|].
  assert (Hlen : S (length (activeLanes (marked x now s))) = length (activeLanes s)).
  { unfold activeLanes.
    apply (@filter_flip_length
             (fun id => LineStatus_eqb (status (lines s id)) Active)
             (fun id => LineStatus_eqb (status (lines (marked x now s) id)) Active)
             x lineIds lineIds_NoDup (lineIds_all x)).
    - apply LineStatus_eqb_eq, activeLanes_In, Hx.
    - rewrite marked_same. reflexivity.
    - intros y Hy. rewrite marked_other by congruence. reflexivity. }
  split; [exact Hlen|]. split; [lia|]. rewrite marked_same. reflexivity.
Qed.

(** ** Further properties: the backlog and the queues *)

Lemma refreshStatuses_cars s id :
  cars (lines (refreshStatuses s) id) = cars (lines s id).
Proof.
  rewrite refreshStatuses_lines. unfold refreshStatus.
  destruct (capacity (lines s id) <=? length (cars (lines s id))); [reflexivity|].
  destruct (LineStatus_eqb (status (lines s id)) Full); reflexivity.
Qed.

Lemma refreshStatuses_lanesTotal s :
  lanesTotal (lines (refreshStatuses s)) = lanesTotal (lines s).
Proof.
  unfold lanesTotal. apply f_equal. apply map_ext. intros id.
  rewrite refreshStatuses_cars. reflexivity.
Qed.

(** One iteration either leaves backlog and queues as they are or moves the
    front car of the backlog into a lane. *)
Lemma allocateOne_moves o s :
  (carBuffer (fst (allocateOne o s)) = carBuffer s
   /\ lanesTotal (lines (fst (allocateOne o s))) = lanesTotal (lines s)
   /\ snd (allocateOne o s) = None)
  \/ (carBuffer (fst (allocateOne o s)) = skipn 1 (carBuffer s)
      /\ lanesTotal (lines (fst (allocateOne o s))) = S (lanesTotal (lines s))
      /\ carBuffer s <> []).
Proof.
  destruct (carBuffer s) as [|car rest] eqn:Hb.
  - rewrite allocateOne_empty by assumption. left. auto.
  - destruct (@allocateOne_cases o s car rest Hb) as [(x & o' & Hf & E)|(n & E)];
      rewrite E; cbn [fst snd].
    + right. split; [reflexivity|]. split; [|discriminate].
      unfold pushCar. cbn [lines set_lines set_carBuffer].
      pose proof (lanesTotal_upd (lines s) x
                    (set_cars (cars (lines s x) ++ [car]) (lines s x))) as H.
      simpl in H. rewrite length_app in H. simpl in H. lia.
    + left. auto.
Qed.

Lemma for_loop_moves draws n from s :
  exists k,
    k <= n
    /\ carBuffer (for_loop n from (fun i st => fst (allocateOne (draws i) st)) s)
       = skipn k (carBuffer s)
    /\ lanesTotal (lines (for_loop n from (fun i st => fst (allocateOne (draws i) st)) s))
       = lanesTotal (lines s) + k.
Proof.
  revert from s. induction n as [|n IH]; intros from s; simpl.
  - exists 0. repeat split; auto.
  - destruct (IH (S from) (fst (allocateOne (draws from) s))) as (k & Hk & Hb & Ht).
    destruct (allocateOne_moves (draws from) s) as [(Eb & Et & _)|(Eb & Et & _)].
    + exists k. rewrite Hb, Ht, Eb, Et. repeat split; auto.
    + exists (S k). rewrite Hb, Ht, Eb, Et. rewrite skipn_skipn.
      replace (k + 1) with (S k) by lia. repeat split; lia.
Qed.

(** X12.  The backlog is consumed first-in first-out, at most two cars per
    tick: [processIncomingCars] removes some number [k <= 2] of cars from the
    front of the backlog, leaves the rest in its order, and the lane queues
    grow by exactly [k] cars in total. *)
Theorem backlog_fifo (draws : nat -> OvenId) (s : Simulator) :
  exists k,
    k <= 2
    /\ carBuffer (processIncomingCars draws s) = skipn k (carBuffer s)
    /\ lanesTotal (lines (processIncomingCars draws s)) = lanesTotal (lines s) + k.
Proof.
  unfold processIncomingCars. destruct (carBuffer s) as [|c b] eqn:Hb.
  - exists 0. rewrite Hb. repeat split; auto.
  - destruct (for_loop_moves draws (Nat.min 2 (length (c :: b))) 0 s)
      as (k & Hk & Eb & Et).
    exists k. rewrite refreshStatuses_lanesTotal, Et.
    change (carBuffer (refreshStatuses ?x)) with (carBuffer x).
    rewrite Eb, Hb. repeat split; lia.
Qed.

(** X13.  Lanes are queues fed at the back: a car that an allocation
    iteration places comes from the front of the backlog, goes to the back of
    the queue of a lane that is not broken down and had room, and no other
    lane changes; the rest of the backlog keeps its order. *)
Theorem lane_fed_at_back (o : OvenId) (s : Simulator) (id : LineId) :
  snd (allocateOne o s) = Some id ->
  exists car rest,
    carBuffer s = car :: rest
    /\ carBuffer (fst (allocateOne o s)) = rest
    /\ cars (lines (fst (allocateOne o s)) id) = cars (lines s id) ++ [car]
    /\ status (lines s id) <> Unavailable
    /\ length (cars (lines s id)) < capacity (lines s id)
    /\ forall id', id' <> id -> lines (fst (allocateOne o s)) id' = lines s id'.
Proof.
  destruct (carBuffer s) as [|car rest] eqn:Hb.
  - rewrite allocateOne_empty by assumption. discriminate.
  - destruct (@allocateOne_cases o s car rest Hb) as [(x & o' & Hf & E)|(n & E)];
      rewrite E; cbn [fst snd]; [|discriminate].
    intros Ex. inversion Ex; subst x. exists car, rest.
    apply findBestLine_spare in Hf. destruct Hf as [[_ Hs] Hroom].
    split; [reflexivity|]. split; [reflexivity|].
    rewrite pushCar_lines. cbn [lines set_carBuffer].
    destruct (LineId_eq_dec id id) as [_|Hne]; [|congruence].
    split; [reflexivity|]. split; [assumption|]. split; [assumption|].
    intros id' Hne. rewrite pushCar_lines. cbn [lines set_carBuffer].
    destruct (LineId_eq_dec id id'); [congruence|reflexivity].
Qed.

Lemma lane_fed_at_back_witness :
  snd (allocateOne O1 (reset sampleReset)) = Some L1
  /\ exists car rest,
       carBuffer (reset sampleReset) = car :: rest
       /\ carBuffer (fst (allocateOne O1 (reset sampleReset))) = rest
       /\ cars (lines (fst (allocateOne O1 (reset sampleReset))) L1)
          = cars (lines (reset sampleReset) L1) ++ [car]
       /\ status (lines (reset sampleReset) L1) <> Unavailable
       /\ length (cars (lines (reset sampleReset) L1))
          < capacity (lines (reset sampleReset) L1)
       /\ forall id', id' <> L1 ->
            lines (fst (allocateOne O1 (reset sampleReset))) id'
            = lines (reset sampleReset) id'.
Proof.
  assert (H : snd (allocateOne O1 (reset sampleReset)) = Some L1)
    by (vm_compute; reflexivity).
  split; [exact H|].
  exact (@lane_fed_at_back O1 (reset sampleReset) L1 H).
Defined.

(** ** Further properties: ovens and backpressure *)

Lemma OvenStatus_eqb_eq (a b : OvenStatus) : OvenStatus_eqb a b = true <-> a = b.
Proof. unfold OvenStatus_eqb. destruct (OvenStatus_eq_dec a b); split; congruence. Qed.

Lemma findBestLine_none_iff c o s :
  findBestLine c o s = None <-> forall id, ~ spareLane o s id.
Proof.
  split.
  - intros Hn id Hid. unfold findBestLine in Hn.
    destruct (find _ (getAvailableLines o s)); [discriminate|].
    destruct (array_sort _ _) as [|x r] eqn:Hs; [|discriminate].
    apply array_sort_nil in Hs. apply notFull_In in Hid. rewrite Hs in Hid.
    destruct Hid.
  - intros Hno. destruct (findBestLine c o s) as [id|] eqn:E; [|reflexivity].
    exfalso. apply (Hno id). eapply findBestLine_spare. exact E.
Qed.

Lemma placeCar_stopped car o s :
  ovenStatus (ovens s o) <> OvenActive ->
  placeCar car o s
  = if OvenStatus_eqb (ovenStatus (ovens s (alternate o))) OvenActive
    then match findBestLine car (alternate o) s with
         | Some lineId => (pushCar lineId car s, Some lineId)
         | None => (set_carBuffer (car :: carBuffer s) s, None)
         end
    else (set_carBuffer (car :: carBuffer s) s, None).
Proof.
  intros Hn. unfold placeCar, OvenStatus_eqb at 1.
  destruct (OvenStatus_eq_dec (ovenStatus (ovens s o)) OvenActive); [contradiction|].
  reflexivity.
Qed.

Lemma placeCar_active car o s :
  ovenStatus (ovens s o) = OvenActive ->
  placeCar car o s
  = match findBestLine car o s with
    | None =>
        match findBestLine car (alternate o) s with
        | Some alternateLineId => (pushCar alternateLineId car s, Some alternateLineId)
        | None =>
            (set_activeAlerts (S (activeAlerts s))
               (set_carBuffer (car :: carBuffer s) s), None)
        end
    | Some lineId => (pushCar lineId car s, Some lineId)
    end.
Proof.
  intros Ha. unfold placeCar, OvenStatus_eqb at 1.
  destruct (OvenStatus_eq_dec (ovenStatus (ovens s o)) OvenActive); [|contradiction].
  reflexivity.
Qed.

(** X14.  A stopped oven is never fed through its own draw: when the oven
    drawn for a car is not active, the car can only land on a lane of the
    other oven, and only if that oven is active; whether the car is placed or
    goes back to the backlog, the alert counter is not touched. *)
Theorem stopped_oven_not_fed (o : OvenId) (s : Simulator) :
  ovenStatus (ovens s o) <> OvenActive ->
  (forall id,
      snd (allocateOne o s) = Some id ->
      oven (lines s id) = alternate o
      /\ ovenStatus (ovens s (alternate o)) = OvenActive)
  /\ activeAlerts (fst (allocateOne o s)) = activeAlerts s.
Proof.
  intros Hn. unfold allocateOne, shiftCar.
  destruct (carBuffer s) as [|car rest]; [split; [discriminate|reflexivity]|].
  rewrite placeCar_stopped by exact Hn. cbn [ovens set_carBuffer].
  destruct (OvenStatus_eqb (ovenStatus (ovens s (alternate o))) OvenActive) eqn:Ea;
    [|split; [discriminate|reflexivity]].
  apply OvenStatus_eqb_eq in Ea.
  destruct (findBestLine car (alternate o) (set_carBuffer rest s)) as [x|] eqn:Hf;
    cbn [fst snd]; [|split; [discriminate|reflexivity]].
  split; [|reflexivity].
  intros id Ex. inversion Ex; subst x. apply findBestLine_spare in Hf.
  destruct Hf as [[Ho _] _]. split; [exact Ho|exact Ea].
Qed.

Lemma stopped_oven_not_fed_witness :
  ovenStatus (ovens stoppedO2 O2) <> OvenActive
  /\ activeAlerts (fst (allocateOne O2 stoppedO2)) = activeAlerts stoppedO2.
Proof.
  assert (H : ovenStatus (ovens stoppedO2 O2) <> OvenActive) by (simpl; discriminate).
  split; [exact H|].
  exact (proj2 (@stopped_oven_not_fed O2 stoppedO2 H)).
Defined.

(** X15.  The fallback does not look at the other oven's status: when the
    oven drawn is active but none of its lanes can take the car, and a lane of
    the other oven can, the car is placed on a lane of the other oven, whether
    that oven is active or stopped. *)
Theorem fallback_ignores_oven_status (o : OvenId) (s : Simulator)
        (car : Color) (rest : list Color) :
  ovenStatus (ovens s o) = OvenActive ->
  carBuffer s = car :: rest ->
  (forall id, ~ spareLane o s id) ->
  (exists id, spareLane (alternate o) s id) ->
  exists id,
    snd (allocateOne o s) = Some id
    /\ oven (lines s id) = alternate o
    /\ cars (lines (fst (allocateOne o s)) id) = cars (lines s id) ++ [car].
Proof.
  intros Ha Hb Hno [y Hy]. unfold allocateOne, shiftCar. rewrite Hb.
  rewrite placeCar_active by exact Ha.
  replace (findBestLine car o (set_carBuffer rest s)) with (@None LineId)
    by (symmetry; apply findBestLine_none_iff; exact Hno).
  destruct (findBestLine car (alternate o) (set_carBuffer rest s)) as [x|] eqn:Hf.
  - exists x. cbn [fst snd]. split; [reflexivity|].
    apply findBestLine_spare in Hf. destruct Hf as [[Ho _] _].
    split; [exact Ho|]. rewrite pushCar_lines. cbn [lines set_carBuffer].
    destruct (LineId_eq_dec x x); [reflexivity|congruence].
  - exfalso. apply (proj1 (findBestLine_none_iff car (alternate o)
                             (set_carBuffer rest s)) Hf y). exact Hy.
Qed.

Lemma fallback_ignores_oven_status_witness :
  ovenStatus (ovens stoppedO2 O1) = OvenActive
  /\ ovenStatus (ovens stoppedO2 O2) = OvenStopped
  /\ exists id,
       snd (allocateOne O1 stoppedO2) = Some id
       /\ oven (lines stoppedO2 id) = O2
       /\ cars (lines (fst (allocateOne O1 stoppedO2)) id)
          = cars (lines stoppedO2 id) ++ [C1].
Proof.
  assert (Ha : ovenStatus (ovens stoppedO2 O1) = OvenActive) by reflexivity.
  assert (Hb : carBuffer stoppedO2 = C1 :: skipn 1 (carBuffer stoppedO2))
    by (vm_compute; reflexivity).
  assert (Hno : forall id, ~ spareLane O1 stoppedO2 id).
  { clear Hb. intros id [[Ho Hs] _]. destruct id; simpl in Ho, Hs; congruence. }
  assert (Hy : exists id, spareLane (alternate O1) stoppedO2 id).
  { exists L5. unfold spareLane, eligibleLane. simpl.
    split; [split; [reflexivity|discriminate]|lia]. }
  split; [exact Ha|]. split; [reflexivity|].
  exact (@fallback_ignores_oven_status O1 stoppedO2 C1 _ Ha Hb Hno Hy).
Defined.

Lemma lanesTotal_full (f : LineId -> Line) :
  (forall id, capacity (f id) = initialCapacity id) ->
  (forall id, capacity (f id) <= length (cars (f id))) ->
  136 <= lanesTotal f.
Proof.
  intros Hc Hfull. unfold lanesTotal, lineIds. simpl.
  pose proof (Hfull L1). pose proof (Hfull L2). pose proof (Hfull L3).
  pose proof (Hfull L4). pose proof (Hfull L5). pose proof (Hfull L6).
  pose proof (Hfull L7). pose proof (Hfull L8). pose proof (Hfull L9).
  rewrite !Hc in *. simpl in *. lia.
Qed.

(** With every lane available, the ovens active and 120 cars in the system,
    an iteration places the car it dequeues: 136 places for at most 119 queued
    cars. *)
Lemma allocateOne_unobstructed o s car rest :
  unobstructed s ->
  carBuffer s = car :: rest ->
  carBuffer (fst (allocateOne o s)) = rest /\ unobstructed (fst (allocateOne o s)).
Proof.
  intros ((Hov & Hcap & Hoven & Hlast) & Hav & Hcount) Hb.
  assert (Hsome : exists id, snd (allocateOne o s) = Some id).
  { unfold allocateOne, shiftCar. rewrite Hb.
    rewrite placeCar_active by apply Hov.
    destruct (findBestLine car o (set_carBuffer rest s)) as [x|] eqn:H1;
      [exists x; reflexivity|].
    destruct (findBestLine car (alternate o) (set_carBuffer rest s)) as [x|] eqn:H2;
      [exists x; reflexivity|].
    exfalso.
    pose proof (proj1 (findBestLine_none_iff _ _ _) H1) as N1.
    pose proof (proj1 (findBestLine_none_iff _ _ _) H2) as N2.
    assert (Hfull : forall id, capacity (lines s id) <= length (cars (lines s id))).
    { intros id. destruct (Nat.le_gt_cases (capacity (lines s id))
                             (length (cars (lines s id)))) as [Hle|Hgt];
        [assumption|].
      exfalso. destruct (OvenId_eq_dec (oven (lines s id)) o) as [Eo|Eo].
      - apply (N1 id). split; [split; [exact Eo|apply Hav]|exact Hgt].
      - apply (N2 id). split; [split; [|apply Hav]|exact Hgt].
        cbn [lines set_carBuffer]. destruct (oven (lines s id)), o; simpl; congruence. }
    pose proof (lanesTotal_full (lines s) Hcap Hfull) as Htot.
    unfold carCount in Hcount. rewrite Hb in Hcount. simpl in Hcount. lia. }
  destruct Hsome as [x Hx].
  destruct (@allocateOne_cases o s car rest Hb) as [(y & o' & Hf & E)|(n & E)];
    [|rewrite E in Hx; discriminate].
  split; [rewrite E; reflexivity|].
  destruct (allocateOne_control o s) as (_ & _ & Eo & El).
  split; [|split].
  - unfold configOK. rewrite Eo, El. repeat split; try assumption.
    + intros id. destruct (allocateOne_grows o s id) as (_ & Ec & _). rewrite Ec. apply Hcap.
    + intros id. destruct (allocateOne_grows o s id) as (_ & _ & Ev & _).
      rewrite Ev. apply Hoven.
  - intros id. destruct (allocateOne_grows o s id) as (Es & _). rewrite Es. apply Hav.
  - rewrite allocateOne_count. exact Hcount.
Qed.

Lemma for_loop_unobstructed draws n from s :
  unobstructed s ->
  n <= length (carBuffer s) ->
  carBuffer (for_loop n from (fun i st => fst (allocateOne (draws i) st)) s)
  = skipn n (carBuffer s).
Proof.
  revert from s. induction n as [|n IH]; intros from s Hu Hn; simpl; [reflexivity|].
  destruct (carBuffer s) as [|car rest] eqn:Hb; [simpl in Hn; lia|].
  destruct (@allocateOne_unobstructed (draws from) s car rest Hu Hb) as [Eb Hu'].
  rewrite IH; [|exact Hu'|rewrite Eb; simpl in Hn; lia].
  rewrite Eb. reflexivity.
Qed.

(** X16.  Backpressure only comes from breakdowns: in a reachable state in
    which no lane is ['unavailable'], [processIncomingCars] places every car
    it dequeues, so the backlog loses its first two cars (its only car when it
    has one). *)
Theorem no_backpressure_without_breakdown (draws : nat -> OvenId) (s : Simulator) :
  reachable s ->
  (forall id, status (lines s id) <> Unavailable) ->
  carBuffer (processIncomingCars draws s) = skipn 2 (carBuffer s).
Proof.
  intros Hr Hav.
  assert (Hu : unobstructed s).
  { split; [apply reachable_config, Hr|]. split; [exact Hav|].
    apply reachable_carCount, Hr. }
  unfold processIncomingCars. destruct (carBuffer s) as [|c b] eqn:Hb; [exact Hb|].
  change (carBuffer (refreshStatuses ?x)) with (carBuffer x).
  rewrite for_loop_unobstructed; [|exact Hu|rewrite Hb; apply Nat.le_min_r].
  rewrite Hb. destruct b as [|c' b']; reflexivity.
Qed.

Lemma no_backpressure_without_breakdown_witness :
  reachable (start (reset sampleReset))
  /\ (forall id, status (lines (start (reset sampleReset)) id) <> Unavailable)
  /\ carBuffer (processIncomingCars (fun _ => O1) (start (reset sampleReset)))
     = skipn 2 (carBuffer (start (reset sampleReset))).
Proof.
  assert (H : reachable (start (reset sampleReset)))
    by (apply (reach_step EvStart), reach_init).
  assert (Hav : forall id, status (lines (start (reset sampleReset)) id) <> Unavailable)
    by (intros []; simpl; discriminate).
  split; [exact H|]. split; [exact Hav|].
  exact (@no_backpressure_without_breakdown (fun _ => O1) (start (reset sampleReset))
           H Hav).
Defined.

(** ** Further properties: stopped and paused simulators *)

Lemma healedOnly_refl s : healedOnly s s.
Proof. unfold healedOnly. repeat split; auto. Qed.

Lemma healedOnly_trans s1 s2 s3 :
  healedOnly s1 s2 -> healedOnly s2 s3 -> healedOnly s1 s3.
Proof.
  unfold healedOnly.
  intros (A1 & B1 & C1' & D1 & E1 & F1 & G1 & H1 & T1 & V1 & W1 & I1)
         (A2 & B2 & C2' & D2 & E2 & F2 & G2 & H2 & T2 & V2 & W2 & I2).
  repeat split; try congruence;
    destruct (I1 id) as (Ic1 & Ik1 & Io1 & Ib1 & Is1);
    destruct (I2 id) as (Ic2 & Ik2 & Io2 & Ib2 & Is2); try congruence.
  destruct Is1 as [Is1|[Is1 Is1']], Is2 as [Is2|[Is2 Is2']].
  - left. congruence.
  - right. split; congruence.
  - right. split; congruence.
  - congruence.
Qed.

Lemma recoveryTimer_healedOnly x s : healedOnly s (recoveryTimer x s).
Proof.
  unfold recoveryTimer.
  destruct (LineStatus_eqb (status (lines s x)) Unavailable) eqn:E;
    [|apply healedOnly_refl].
  apply LineStatus_eqb_eq in E. unfold healedOnly. simpl.
  repeat split; try reflexivity;
    unfold upd_line; destruct (LineId_eq_dec x id) as [->|Hne]; simpl; auto.
Qed.

(** X17.  Pause freezes the line but not the repairs: while the simulator is
    stopped or paused, any sequence of heartbeat ticks and recovery-timer
    firings leaves the backlog, every lane queue, the conveyor slot, the
    counters and the alert count unchanged; the only change possible is a lane
    going from ['unavailable'] back to ['active']. *)
Theorem paused_only_heals (s : Simulator) (evs : list Event) :
  negb (isRunning s) || isPaused s = true ->
  forallb tickOrTimer evs = true ->
  healedOnly s (run s evs).
Proof.
  revert s. induction evs as [|e evs IH]; intros s Hg Hevs; simpl;
    [apply healedOnly_refl|].
  simpl in Hevs. apply andb_true_iff in Hevs. destruct Hevs as [He Hevs].
  assert (Hstep : healedOnly s (step s e)).
  { destruct e as [inp| | |inp|x]; try discriminate; cbn [step].
    - unfold tick. rewrite Hg. apply healedOnly_refl.
    - apply recoveryTimer_healedOnly. }
  eapply healedOnly_trans; [exact Hstep|].
  apply IH; [|exact Hevs].
  destruct Hstep as (Er & Ep & _). rewrite Er, Ep. exact Hg.
Qed.

Lemma paused_only_heals_witness :
  negb (isRunning (pause (step (start (reset sampleReset)) (EvTick sampleTick))))
  || isPaused (pause (step (start (reset sampleReset)) (EvTick sampleTick))) = true
  /\ healedOnly
       (pause (step (start (reset sampleReset)) (EvTick sampleTick)))
       (run (pause (step (start (reset sampleReset)) (EvTick sampleTick)))
          [EvTick sampleTickSoon; EvTimer L1; EvTick sampleTickLater]).
Proof.
  assert (Hg : negb (isRunning (pause (step (start (reset sampleReset))
                                         (EvTick sampleTick))))
               || isPaused (pause (step (start (reset sampleReset))
                                     (EvTick sampleTick))) = true)
    by (apply orb_true_r).
  split; [exact Hg|].
  exact (@paused_only_heals _ [EvTick sampleTickSoon; EvTimer L1; EvTick sampleTickLater]
           Hg eq_refl).
Defined.

(** ** Further properties: the release sequencer does not idle *)

(** X18.  The conveyor never idles while a lane can be drained: on an empty
    slot, [processMainLine] leaves the slot empty exactly when no lane is a
    candidate (not broken down, at least one queued car); otherwise it loads a
    car. *)
Theorem conveyor_never_idles (s : Simulator) :
  currentCar (mainLine s) = None ->
  (currentCar (mainLine (processMainLine s)) = None
   <-> forall id, ~ candidateLane s id).
Proof.
  intros Ec. destruct (selectNextLine s) as [id|] eqn:Hsel.
  - pose proof (@selectNextLine_candidate s id Hsel) as Hcand.
    destruct (cars (lines s id)) as [|car rest] eqn:Hc;
      [destruct Hcand as [_ Hne]; congruence|].
    rewrite (@processMainLine_load s id car rest Ec Hsel Hc). unfold loaded. simpl.
    split; [discriminate|]. intros Hno. exfalso. apply (Hno id). exact Hcand.
  - assert (E : processMainLine s = s).
    { unfold processMainLine. rewrite Ec, Hsel. reflexivity. }
    rewrite E. split; [|intros _; exact Ec].
    intros _ id Hid. apply selectNextLine_none in Hsel.
    apply dispatchable_In in Hid. rewrite Hsel in Hid. destruct Hid.
Qed.

Lemma conveyor_never_idles_witness :
  currentCar (mainLine (withQueues [C3] [])) = None
  /\ currentCar (mainLine (processMainLine (withQueues [C3] []))) <> None.
Proof.
  assert (H : currentCar (mainLine (withQueues [C3] [])) = None) by reflexivity.
  split; [exact H|].
  intros Hn. apply (proj1 (@conveyor_never_idles (withQueues [C3] []) H) Hn L1).
  split; simpl; discriminate.
Defined.

(** ** Further properties: the lane card of the dashboard *)

(** X19.  The lane card accounts for every car: the tiles it draws are the
    last cars of the queue, at most ten, in queue order; the [+N] badge is
    shown exactly when more than ten cars are queued, and [N] is the number of
    cars in front of the drawn ones. *)
Theorem lane_card_accounts_for_all (cars : list Color) :
  exists hidden,
    cars = hidden ++ visibleCars cars
    /\ length (visibleCars cars) = Nat.min 10 (length cars)
    /\ overflowBadge cars
       = (if 10 <? length cars then Some (length hidden) else None)
    /\ (length cars <= 10 -> hidden = [] /\ visibleCars cars = cars).
Proof.
  unfold visibleCars, overflowBadge.
  exists (firstn (length cars - 10) cars).
  split; [symmetry; apply firstn_skipn|]. split; [rewrite length_skipn; lia|].
  split.
  - destruct (10 <? length cars) eqn:E; [|reflexivity].
    apply Nat.ltb_lt in E. rewrite length_firstn. f_equal. lia.
  - intros Hle. replace (length cars - 10) with 0 by lia. split; reflexivity.
Qed.

(** ** Further properties: the control buttons and the hourly counter *)

Lemma allocateOne_hourStart o s :
  hourStartTime (fst (allocateOne o s)) = hourStartTime s.
Proof.
  destruct (carBuffer s) as [|car rest] eqn:Hb.
  - rewrite allocateOne_empty by assumption. reflexivity.
  - destruct (@allocateOne_cases o s car rest Hb) as [(x & o' & _ & E)|(n & E)];
      rewrite E; reflexivity.
Qed.

Lemma processIncomingCars_hourStart draws s :
  hourStartTime (processIncomingCars draws s) = hourStartTime s.
Proof.
  unfold processIncomingCars. destruct (carBuffer s) as [|c b]; [reflexivity|].
  change (hourStartTime (refreshStatuses ?x)) with (hourStartTime x).
  apply (for_loop_invariant (fun st => hourStartTime st = hourStartTime s));
    [|reflexivity].
  intros i st Hst. rewrite allocateOne_hourStart. exact Hst.
Qed.

Lemma processMainLine_hourStart s :
  hourStartTime (processMainLine s) = hourStartTime s.
Proof.
  pose proof (processMainLine_cases s) as Hc.
  destruct (currentCar (mainLine s)) as [car|]; [rewrite Hc; reflexivity|].
  destruct Hc as [Hc|(id & car & rest & line' & _ & _ & _ & _ & _ & _ & _ & Hc)];
    rewrite Hc; reflexivity.
Qed.

Lemma tickRoll_hourStart inp s : hourStartTime (fst (tickRoll inp s)) = hourStartTime s.
Proof.
  destruct (tickRoll_cases inp s) as [E|(x & _ & _ & _ & E)]; rewrite E; reflexivity.
Qed.

(** The hourly counter and its origin after an executed tick. *)
Lemma tick_hour inp s :
  isRunning s = true ->
  isPaused s = false ->
  if (3600000 <=? hourNow inp - hourStartTime s)%Z
  then processedThisHour (fst (tick inp s)) = 0
       /\ hourStartTime (fst (tick inp s)) = hourResetNow inp
  else processedThisHour (fst (tick inp s)) = processedThisHour s + inSlot s
       /\ hourStartTime (fst (tick inp s)) = hourStartTime s.
Proof.
  intros Hr Hp. rewrite tick_unfold, Hr, Hp. cbn [negb orb fst].
  unfold tickTail, afterAllocation.
  set (s2 := processIncomingCars (ovenDraws inp) (fst (tickRoll inp s))).
  assert (Hc : sameConveyor s s2).
  { eapply sameConveyor_trans;
      [apply tickRoll_conveyor|apply processIncomingCars_conveyor]. }
  destruct Hc as (Hm & _ & Hh & _).
  assert (E2 : hourStartTime (processMainLine s2) = hourStartTime s).
  { rewrite processMainLine_hourStart. unfold s2.
    rewrite processIncomingCars_hourStart. apply tickRoll_hourStart. }
  rewrite E2. destruct (3600000 <=? hourNow inp - hourStartTime s)%Z.
  - split; reflexivity.
  - cbn [processedThisHour hourStartTime set_activeAlerts]. split; [|exact E2].
    pose proof (processMainLine_cases s2) as H. unfold inSlot. rewrite Hm in H.
    destruct (currentCar (mainLine s)) as [car|].
    + rewrite H. simpl. lia.
    + destruct H as [H|(id & car & rest & line' & _ & _ & _ & _ & _ & _ & _ & H)];
        rewrite H; simpl; lia.
Qed.

(** X20.  The control buttons follow the heartbeat: on any snapshot exactly
    one of Start and Pause is enabled, and Start is the enabled one exactly
    when the simulator is in a state where ticks do nothing. *)
Theorem buttons_follow_heartbeat (now : Z) (s : Simulator) :
  pauseDisabled (getStatus now s) = negb (startDisabled (getStatus now s))
  /\ (startDisabled (getStatus now s) = false
      <-> forall inp, tick inp s = (s, None)).
Proof.
  unfold pauseDisabled, startDisabled. simpl. split.
  - destruct (isRunning s), (isPaused s); reflexivity.
  - split.
    + intros H inp. unfold tick.
      destruct (isRunning s), (isPaused s); simpl in *; try reflexivity; discriminate.
    + intros H. destruct (isRunning s) eqn:Er, (isPaused s) eqn:Ep; try reflexivity.
      exfalso.
      pose proof (@tick_hour (mkTickInput false 0 0 (fun _ => O1)
                                (hourStartTime s + 3600000) (hourStartTime s + 1))
                             s Er Ep) as Ht.
      rewrite H in Ht. cbn [fst hourNow hourResetNow] in Ht.
      replace (3600000 <=? hourStartTime s + 3600000 - hourStartTime s)%Z with true in Ht
        by (symmetry; apply Z.leb_le; lia).
      destruct Ht as [_ Ht]. lia.
Qed.

(** X21.  The hourly counter is reset hard: an executed tick that finds at
    least 3600000 ms elapsed since [hourStartTime] ends with
    [processedThisHour] at 0, even when it has just retired a car, and with
    [hourStartTime] at the time read for the reset; any other executed tick
    keeps [hourStartTime] and adds to [processedThisHour] one if the slot was
    occupied and nothing otherwise. *)
Theorem hour_rollover (inp : TickInput) (s : Simulator) :
  isRunning s = true ->
  isPaused s = false ->
  ((3600000 <= hourNow inp - hourStartTime s)%Z ->
   processedThisHour (fst (tick inp s)) = 0
   /\ hourStartTime (fst (tick inp s)) = hourResetNow inp)
  /\ ((hourNow inp - hourStartTime s < 3600000)%Z ->
      processedThisHour (fst (tick inp s)) = processedThisHour s + inSlot s
      /\ hourStartTime (fst (tick inp s)) = hourStartTime s).
Proof.
  intros Hr Hp. pose proof (@tick_hour inp s Hr Hp) as H.
  destruct (3600000 <=? hourNow inp - hourStartTime s)%Z eqn:E.
  - apply Z.leb_le in E. split; [intros _; exact H|]. intros Hlt. lia.
  - apply Z.leb_gt in E. split; [|intros _; exact H]. intros Hle. lia.
Qed.

Lemma hour_rollover_witness :
  isRunning (start (reset sampleReset)) = true
  /\ isPaused (start (reset sampleReset)) = false
  /\ (hourNow sampleTick - hourStartTime (start (reset sampleReset)) < 3600000)%Z
  /\ processedThisHour (fst (tick sampleTick (start (reset sampleReset))))
     = processedThisHour (start (reset sampleReset)) + inSlot (start (reset sampleReset))
  /\ hourStartTime (fst (tick sampleTick (start (reset sampleReset))))
     = hourStartTime (start (reset sampleReset)).
Proof.
  assert (Hlt : (hourNow sampleTick - hourStartTime (start (reset sampleReset))
                 < 3600000)%Z) by (simpl; lia).
  split; [reflexivity|]. split; [reflexivity|]. split; [exact Hlt|].
  exact (proj2 (@hour_rollover sampleTick (start (reset sampleReset)) eq_refl eq_refl)
           Hlt).
Defined.
